(** * Auto-Transcriber: a shallow embedding of [app.py]

    The development follows the source file top to bottom:

    - [PyStr]: the [str] methods the program calls ([rfind], slices,
      [rstrip], [startswith], [endswith], [replace]);
    - [posixpath]: [os.path.join], [basename], [dirname], [splitext] as
      CPython's [posixpath]/[genericpath] define them;
    - the module constants and [get_transcription_path];
    - the ledger ([load_processed_files], [save_processed_files]), the
      worker loop body, the start-up scan and the three watcher handlers,
      written in a small state-and-exception monad over the process-local
      [processed_files] set, the history of the calls the process made,
      and the world the processes share (directory tree, ledger file,
      task queue);
    - the program as a system of processes, for the scenarios in which
      several of them take turns.

    Paths are POSIX paths ([os.sep = "/"]). *)

From Stdlib Require Import ZArith Ascii Lia.
From stdpp Require Import base list strings gmap sets.

Local Open Scope Z_scope.

(** ** Python [str] primitives *)

Module PyStr.

(** [s.rfind(c)] for a one-character [c]: the highest index of [c] in [s],
    or [-1]. *)
Fixpoint rfind (c : ascii) (s : string) : Z :=
  match s with
  | EmptyString => -1
  | String a r =>
      let i := rfind c r in
      if 0 <=? i then i + 1 else if Ascii.eqb a c then 0 else -1
  end.

Fixpoint take (n : nat) (s : string) : string :=
  match n, s with
  | S k, String a r => String a (take k r)
  | _, _ => EmptyString
  end.

Fixpoint drop (n : nat) (s : string) : string :=
  match n, s with
  | S k, String _ r => drop k r
  | _, _ => s
  end.

(** [s[:i]] and [s[i:]]; every index the program slices with is an
    [rfind] result or its successor, so negative indices are only ever
    [-1 + 1 = 0] and the wrap-around of negative slice bounds never
    applies. *)
Definition slice_to (i : Z) (s : string) : string := take (Z.to_nat i) s.
Definition slice_from (i : Z) (s : string) : string := drop (Z.to_nat i) s.

Definition len (s : string) : Z := Z.of_nat (String.length s).

(** [s == c * len(s)] *)
Fixpoint all_char (c : ascii) (s : string) : bool :=
  match s with
  | EmptyString => true
  | String a r => Ascii.eqb a c && all_char c r
  end.

(** [s.rstrip(c)] for a one-character [c]. *)
Fixpoint rstrip (c : ascii) (s : string) : string :=
  match s with
  | EmptyString => EmptyString
  | String a r =>
      match rstrip c r with
      | EmptyString => if Ascii.eqb a c then EmptyString else String a EmptyString
      | r' => String a r'
      end
  end.

Definition startswith (s pre : string) : bool := String.prefix pre s.

(** [s.endswith(suf)]: some tail of [s] is [suf]. *)
Fixpoint endswith (s suf : string) : bool :=
  String.eqb s suf ||
  match s with
  | EmptyString => false
  | String _ r => endswith r suf
  end.

(** [s.replace(old, new)] for a non-empty [old]: scan left to right, and at
    each occurrence of [old] emit [new] and resume after the occurrence.
    [skip] counts the characters of the current occurrence still to pass. *)
Fixpoint replace_from (old new : string) (skip : nat) (s : string) : string :=
  match s with
  | EmptyString => EmptyString
  | String a r =>
      match skip with
      | S k => replace_from old new k r
      | O =>
          if String.prefix old s
          then new +:+ replace_from old new (String.length old - 1) r
          else String a (replace_from old new 0 r)
      end
  end.

Definition replace (old new s : string) : string := replace_from old new 0 s.

(** Truthiness of a [str] *)
Definition truthy (s : string) : bool := negb (String.eqb s "").

End PyStr.

(** ** [os.path] on POSIX *)

Module posixpath.
Import PyStr.

Definition sep : ascii := "/"%char.
Definition extsep : ascii := "."%char.

(** [os.path.join(a, b)] *)
Definition join (a b : string) : string :=
  if startswith b (String sep "") || negb (truthy a) then b
  else if endswith a (String sep "") then a +:+ b
  else a +:+ String sep b.

(** [os.path.basename(p)]: [i = p.rfind(sep) + 1; return p[i:]] *)
Definition basename (p : string) : string :=
  let i := rfind sep p + 1 in
  slice_from i p.

(** [os.path.dirname(p)] *)
Definition dirname (p : string) : string :=
  let i := rfind sep p + 1 in
  let head := slice_to i p in
  if truthy head && negb (all_char sep head) then rstrip sep head else head.

(** [genericpath._splitext(p, sep, None, extsep)]: the [while] loop of the
    source looks for a character other than [extsep] in
    [p[sepIndex+1:dotIndex]]; leading dots of the last component belong to
    the root. *)
Definition splitext (p : string) : string * string :=
  let sepIndex := rfind sep p in
  let dotIndex := rfind extsep p in
  if (sepIndex <? dotIndex)
     && negb (all_char extsep (slice_to (dotIndex - (sepIndex + 1))
                                        (slice_from (sepIndex + 1) p)))
  then (slice_to dotIndex p, slice_from dotIndex p)
  else (p, EmptyString).

End posixpath.

(** ** Module constants *)

Definition MONITORED_FOLDER : string := "media_files".
Definition SUPPORTED_FORMATS : list string :=
  [".mp3"; ".wav"; ".mp4"; ".mkv"; ".mov"; ".flv"; ".aac"; ".m4a"].
Definition PROCESSED_FILES_DB : string := "processed_files.json".

(** ** [get_transcription_path] *)

Definition get_transcription_path (file_path : string) : string :=
  posixpath.join (posixpath.dirname file_path)
    (fst (posixpath.splitext (posixpath.basename file_path)) +:+ ".txt").

(** The stem of a path, as [get_transcription_path] computes it: the root
    [splitext] gives for the last component. *)
Definition stem (p : string) : string :=
  fst (posixpath.splitext (posixpath.basename p)).

(** The extension of a path: [os.path.splitext(p)[1]]. *)
Definition extension (p : string) : string := snd (posixpath.splitext p).

(** ** JSON documents and the elements of a Python [set]

    [json.load] yields a JSON document; numbers are kept to the integers,
    which is all the ledger claims need.  [set(...)] holds hashable values:
    [None], integers (with [True == 1] and [False == 0]) and strings. *)

#[warnings="-register-all"]
Inductive json : Type :=
  | JNull
  | JBool (b : bool)
  | JNum (n : Z)
  | JStr (s : string)
  | JArr (items : list json)
  | JObj (members : list (string * json)).

Inductive key : Type :=
  | KNone
  | KInt (n : Z)
  | KStr (s : string).

Global Instance key_eq_dec : EqDecision key.
Proof. solve_decision. Defined.

Definition key_to_sum (k : key) : unit + Z + string :=
  match k with
  | KNone => inl (inl tt)
  | KInt n => inl (inr n)
  | KStr s => inr s
  end.

Definition key_of_sum (x : unit + Z + string) : key :=
  match x with
  | inl (inl _) => KNone
  | inl (inr n) => KInt n
  | inr s => KStr s
  end.

Global Instance key_countable : Countable key.
Proof.
  apply (inj_countable' key_to_sum key_of_sum).
  intros []; reflexivity.
Defined.

(** The exceptions the program can meet.  All are subclasses of
    [Exception]; signals such as [KeyboardInterrupt], which
    [except Exception] does not catch, are not modelled. *)
Inductive exn : Type :=
  | JSONDecodeError
  | UnicodeDecodeError
  | FileNotFoundError
  | IsADirectoryError
  | NotADirectoryError
  | OSError         (* no space left on the device *)
  | TypeError
  | Empty           (* queue.Empty *)
  | EngineError.    (* whatever the transcription engine raises *)

Global Instance exn_eq_dec : EqDecision exn.
Proof. solve_decision. Defined.

Inductive outcome (A : Type) : Type :=
  | Returns (a : A)
  | Raises (e : exn).
Arguments Returns {A} a.
Arguments Raises {A} e.

(** [hash(v)] for a decoded JSON value: lists and dicts are unhashable. *)
Definition json_key (v : json) : outcome key :=
  match v with
  | JNull => Returns KNone
  | JBool b => Returns (KInt (if b then 1 else 0))
  | JNum n => Returns (KInt n)
  | JStr s => Returns (KStr s)
  | JArr _ | JObj _ => Raises TypeError
  end.

Definition key_json (k : key) : json :=
  match k with
  | KNone => JNull
  | KInt n => JNum n
  | KStr s => JStr s
  end.

Fixpoint set_of_items (items : list json) : outcome (gset key) :=
  match items with
  | [] => Returns ∅
  | v :: rest =>
      match json_key v with
      | Raises e => Raises e
      | Returns k =>
          match set_of_items rest with
          | Raises e => Raises e
          | Returns s => Returns ({[k]} ∪ s)
          end
      end
  end.

Fixpoint chars (s : string) : list string :=
  match s with
  | EmptyString => []
  | String a r => String a EmptyString :: chars r
  end.

(** [set(v)]: iterate [v] and hash each item.  A list yields its items, a
    dict its keys, a string its characters; anything else is not
    iterable. *)
Definition py_set (v : json) : outcome (gset key) :=
  match v with
  | JArr items => set_of_items items
  | JObj members => Returns (list_to_set (KStr <$> members.*1))
  | JStr s => Returns (list_to_set (KStr <$> chars s))
  | JNull | JBool _ | JNum _ => Raises TypeError
  end.

(** ** The world the processes share *)

(** A directory of the tree under the working directory: its path as
    [os.walk] reports it, its regular files (name, contents), and whether
    the device that holds it has run out of space. *)
Record directory : Type := Dir {
  dir_path : string;
  dir_files : list (string * string);
  dir_full : bool
}.

(** A directory on a device with room. *)
Definition Directory (path : string) (files : list (string * string))
  : directory := Dir path files false.

(** The ledger file [PROCESSED_FILES_DB] sits in the working directory,
    outside the monitored folder, and no transcript path can name it (see
    [transcript_path_not_ledger]); it is kept as a field of its own,
    described by what reading it gives. *)
Inductive ledger_file : Type :=
  | Absent                (* [os.path.exists(PROCESSED_FILES_DB)] is false *)
  | NotText               (* bytes that are not valid UTF-8 text *)
  | Garbled               (* text on which [json.load] raises JSONDecodeError *)
  | Document (v : json).  (* text that [json.load] decodes to [v] *)

Record world : Type := World {
  tree : list directory;
  ledger : ledger_file;
  task_queue : list (option string)   (* [None] is the shutdown sentinel *)
}.

(** What a process did, oldest call first. *)
Inductive call : Type :=
  | PathExists (p : string)
  | Sleep (secs : nat)
  | QueuePut (job : option string)
  | Transcribe (p : string)
  | WriteText (p text : string)
  | SetAdd (p : string)
  | LedgerDump (items : list key).

(** [processed_files] is a module global: every process has its own. *)
Record process : Type := Process {
  processed_files : gset key;
  history : list call
}.

(** *** The directory tree *)

Definition is_dir (t : list directory) (p : string) : bool :=
  existsb (fun d => String.eqb (dir_path d) p) t.

Definition has_file (d : directory) (name : string) : bool :=
  existsb (fun f => String.eqb (fst f) name) (dir_files d).

(** A path names a regular file when its parent directory is in the tree
    and lists its last component. *)
Definition is_file (t : list directory) (p : string) : bool :=
  existsb (fun d => String.eqb (dir_path d) (posixpath.dirname p)
                    && has_file d (posixpath.basename p)) t.

(** [os.path.exists] *)
Definition exists_in (t : list directory) (p : string) : bool :=
  is_dir t p || is_file t p.

Definition put_file (name text : string) (d : directory) : directory :=
  Dir (dir_path d)
    (if has_file d name
     then map (fun f => if String.eqb (fst f) name then (name, text) else f)
              (dir_files d)
     else dir_files d ++ [(name, text)])
    (dir_full d).

(** The entry [p] is made to hold [text] in its parent directory. *)
Definition set_entry (t : list directory) (p text : string) : list directory :=
  map (fun d => if String.eqb (dir_path d) (posixpath.dirname p)
                then put_file (posixpath.basename p) text d
                else d) t.

(** Some directory component of [p], short of [p] itself, is a regular
    file.  [fuel] bounds the climb; the length of [p] is enough, as
    [dirname] gives a prefix. *)
Fixpoint file_above (fuel : nat) (t : list directory) (p : string) : bool :=
  match fuel with
  | O => false
  | S k =>
      let d := posixpath.dirname p in
      negb (String.eqb d p) && (is_file t d || file_above k t d)
  end.

(** [open(p, "w")]: [p] must not be a directory, no component of it may
    be a regular file, and its parent directory must exist; the file is
    then created, or truncated if it was there. *)
Definition open_for_write (t : list directory) (p : string)
  : outcome (list directory) :=
  if is_dir t p then Raises IsADirectoryError
  else if file_above (String.length p) t p then Raises NotADirectoryError
  else if negb (is_dir t (posixpath.dirname p)) then Raises FileNotFoundError
  else Returns (set_entry t p "").

(** The device that holds the parent directory of [p] is full. *)
Definition device_full (t : list directory) (p : string) : bool :=
  existsb (fun d => String.eqb (dir_path d) (posixpath.dirname p) && dir_full d) t.

(** [with open(p, "w") as f: f.write(text)]: the tree it leaves when it
    returns.  The text reaches the file after the file has been created
    or truncated; on a full device that step raises for a non-empty
    text. *)
Definition write_file (t : list directory) (p text : string)
  : outcome (list directory) :=
  match open_for_write t p with
  | Raises e => Raises e
  | Returns t0 =>
      if device_full t p && PyStr.truthy text then Raises OSError
      else Returns (set_entry t0 p text)
  end.

(** The tree a write leaves when it raises: as before when the file could
    not be opened, and with the file created or truncated otherwise. *)
Definition tree_after_failed_write (t : list directory) (p : string)
  : list directory :=
  match open_for_write t p with
  | Raises _ => t
  | Returns t0 => t0
  end.

(** What reading the file at [p] gives, when [p] names a regular file. *)
Definition read_file (t : list directory) (p : string) : option string :=
  d ← List.find (fun d => String.eqb (dir_path d) (posixpath.dirname p)) t ;
  snd <$> List.find (fun f => String.eqb (fst f) (posixpath.basename p))
            (dir_files d).

Definition remove_file (t : list directory) (p : string) : list directory :=
  map (fun d => if String.eqb (dir_path d) (posixpath.dirname p)
                then Dir (dir_path d)
                       (filter (fun f => fst f ≠ posixpath.basename p)
                               (dir_files d))
                       (dir_full d)
                else d) t.

(** [os.walk(top)]: every directory at or below [top] with the names of
    its files (the program ignores the sub-directory component). *)
Definition os_walk (t : list directory) (top : string)
  : list (string * list string) :=
  map (fun d => (dir_path d, map fst (dir_files d)))
      (filter (fun d => dir_path d = top
                        ∨ PyStr.startswith (dir_path d)
                            (top +:+ String posixpath.sep "") = true) t).

(** ** The monad of a running process

    A computation runs in one process: it reads and updates that process's
    own state and the shared world, and either returns or raises.  State
    changes made before an exception is raised stay, as in Python. *)

Definition M (A : Type) : Type :=
  process * world → outcome A * (process * world).

Global Instance M_ret : MRet M := λ A a st, (Returns a, st).

Global Instance M_bind : MBind M := λ A B f m st,
  match m st with
  | (Returns a, st') => f a st'
  | (Raises e, st') => (Raises e, st')
  end.

Definition raise {A} (e : exn) : M A := λ st, (Raises e, st).

Definition lift {A} (o : outcome A) : M A := λ st, (o, st).

(** [try: body / except <catches>: handler] *)
Definition try_except {A} (body : M A) (catches : exn → bool)
    (handler : exn → M A) : M A := λ st,
  match body st with
  | (Raises e, st') => if catches e then handler e st' else (Raises e, st')
  | r => r
  end.

Fixpoint for_each {A} (l : list A) (body : A → M unit) : M unit :=
  match l with
  | [] => mret tt
  | x :: rest => body x ;; for_each rest body
  end.

(** [a and b], where evaluating [b] has effects: [b] runs only when [a]
    holds. *)
Definition and_then (a : bool) (b : M bool) : M bool :=
  if a then b else mret false.
Infix "&&&" := and_then (at level 40, left associativity).

Global Instance M_fmap : FMap M := λ A B f m, a ← m ; mret (f a).

Definition record (c : call) : M unit := λ '(pr, w),
  (Returns tt, (Process (processed_files pr) (history pr ++ [c]), w)).

Definition get_tree : M (list directory) := λ '(pr, w), (Returns (tree w), (pr, w)).
Definition set_tree (t : list directory) : M unit := λ '(pr, w),
  (Returns tt, (pr, World t (ledger w) (task_queue w))).
Definition get_ledger : M ledger_file := λ '(pr, w), (Returns (ledger w), (pr, w)).
Definition set_ledger (l : ledger_file) : M unit := λ '(pr, w),
  (Returns tt, (pr, World (tree w) l (task_queue w))).
Definition get_queue : M (list (option string)) := λ '(pr, w),
  (Returns (task_queue w), (pr, w)).
Definition set_queue (q : list (option string)) : M unit := λ '(pr, w),
  (Returns tt, (pr, World (tree w) (ledger w) q)).
Definition get_processed : M (gset key) := λ '(pr, w),
  (Returns (processed_files pr), (pr, w)).
Definition set_processed (s : gset key) : M unit := λ '(pr, w),
  (Returns tt, (Process s (history pr), w)).

(** [os.path.exists(p)] *)
Definition path_exists (p : string) : M bool :=
  record (PathExists p) ;; t ← get_tree ; mret (exists_in t p).

(** [time.sleep(secs)] *)
Definition sleep (secs : nat) : M unit := record (Sleep secs).

(** [task_queue.put(job)] *)
Definition queue_put (job : option string) : M unit :=
  record (QueuePut job) ;;
  q ← get_queue ; set_queue (q ++ [job]).

(** [task_queue.get(timeout=10)]: the oldest item, or [Empty] once the
    timeout has passed on an empty queue. *)
Definition queue_get : M (option string) :=
  q ← get_queue ;
  match q with
  | [] => raise Empty
  | job :: rest => set_queue rest ;; mret job
  end.

(** [file_path in processed_files] *)
Definition in_processed (file_path : string) : M bool :=
  s ← get_processed ; mret (bool_decide (KStr file_path ∈ s)).

(** [processed_files.add(file_path)] *)
Definition processed_add (file_path : string) : M unit :=
  record (SetAdd file_path) ;;
  s ← get_processed ; set_processed ({[KStr file_path]} ∪ s).

(** [any(s.endswith(ext) for ext in SUPPORTED_FORMATS)]: the result does
    not depend on the order in which the set is iterated. *)
Definition supported (s : string) : bool :=
  existsb (PyStr.endswith s) SUPPORTED_FORMATS.

(** ** The ledger *)

Definition load_processed_files : M unit :=
  l ← get_ledger ;
  match l with
  | Absent => mret tt
  | _ =>
      try_except
        (v ← match l with
             | Document v => mret v
             | Garbled => raise JSONDecodeError
             | NotText => raise UnicodeDecodeError
             | Absent => raise FileNotFoundError
             end ;
         s ← lift (py_set v) ;
         set_processed s)
        (λ e, bool_decide (e = JSONDecodeError ∨ e = FileNotFoundError))
        (λ _, set_processed ∅)
  end.

(** [json.dump(list(processed_files), f)] over a file opened with ["w"] *)
Definition save_processed_files : M unit :=
  s ← get_processed ;
  record (LedgerDump (elements s)) ;;
  set_ledger (Document (JArr (key_json <$> elements s))).

(** ** [save_transcription] *)

Definition save_transcription (transcript_path transcript : string) : M unit :=
  record (WriteText transcript_path transcript) ;;
  t ← get_tree ;
  t0 ← lift (open_for_write t transcript_path) ;
  set_tree t0 ;;
  if device_full t transcript_path && PyStr.truthy transcript
  then raise OSError
  else set_tree (set_entry t0 transcript_path transcript).

Section Pipeline.

(** The transcription engine: [model.transcribe] joined into one text, or
    an exception.  It is the external collaborator of the program. *)
Variable engine : string → option string.

Definition transcribe (file_path : string) : M string :=
  record (Transcribe file_path) ;;
  match engine file_path with
  | Some text => mret text
  | None => raise EngineError
  end.

(** ** [transcriber_worker]

    What the loop body does with a dequeued media path (source lines
    57 to 70): [true] stands for reaching the next iteration. *)
Definition handle_job (file_path : string) : M bool :=
  let transcript_path := get_transcription_path file_path in
  known ← in_processed file_path ;
  done_before ← known &&& path_exists transcript_path ;
  if done_before : bool then (mret true : M bool)
  else
    transcript ← transcribe file_path ;
    save_transcription transcript_path transcript ;;
    processed_add file_path ;;
    save_processed_files ;;
    mret true.

(** The body of the [while True] loop: [false] is the [break]; both
    [except] clauses lead to the next iteration. *)
Definition worker_iteration : M bool :=
  try_except
    (job ← queue_get ;
     match job with
     | None => mret false
     | Some file_path => handle_job file_path
     end)
    (λ _, true)
    (λ _, mret true).

(** The loop itself, for at most [fuel] iterations. *)
Fixpoint transcriber_worker (fuel : nat) : M unit :=
  match fuel with
  | O => mret tt
  | S k =>
      again ← worker_iteration ;
      if again : bool then transcriber_worker k else mret tt
  end.

(** ** [process_untranscribed_files] *)

(** The body of the inner [for file in files] loop. *)
Definition scan_file (root file : string) : M unit :=
  let file_path := posixpath.join root file in
  let transcript_path := get_transcription_path file_path in
  wanted ← supported file &&& (negb <$> path_exists transcript_path) ;
  if wanted : bool
  then queue_put (Some file_path) ;; processed_add file_path
  else mret tt.

Definition scan_directory (entry : string * list string) : M unit :=
  for_each (snd entry) (scan_file (fst entry)).

Definition process_untranscribed_files : M unit :=
  load_processed_files ;;
  t ← get_tree ;
  for_each (os_walk t MONITORED_FOLDER) scan_directory ;;
  save_processed_files.

(** ** [MediaFileHandler] *)

Record event : Type := Event {
  is_directory : bool;
  src_path : string;
  dest_path : string     (* of a move; unused by the other handlers *)
}.

Definition on_created (ev : event) : M unit :=
  if negb (is_directory ev) && supported (src_path ev)
  then
    sleep 3 ;;
    let transcript_path := get_transcription_path (src_path ev) in
    present ← path_exists (src_path ev) ;
    wanted ← present &&& (negb <$> path_exists transcript_path) ;
    if wanted : bool then queue_put (Some (src_path ev)) else mret tt
  else mret tt.

Definition on_moved (ev : event) : M unit :=
  if negb (is_directory ev) && supported (dest_path ev)
  then
    let transcript_path := get_transcription_path (dest_path ev) in
    done_before ← path_exists transcript_path ;
    if negb done_before then queue_put (Some (dest_path ev)) else mret tt
  else mret tt.

(** The [for ext in SUPPORTED_FORMATS] loop with its [break]: the first
    candidate, in iteration order, that exists. *)
Fixpoint find_media (filename : string) (exts : list string)
  : M (option string) :=
  match exts with
  | [] => mret None
  | ext :: rest =>
      let potential_path := posixpath.join MONITORED_FOLDER (filename +:+ ext) in
      found ← path_exists potential_path ;
      if found : bool then mret (Some potential_path)
      else find_media filename rest
  end.

(** [SUPPORTED_FORMATS] is a Python set, so the order in which the loop
    visits it is not fixed by the program: [order] is that order. *)
Definition on_deleted (order : list string) (ev : event) : M unit :=
  if negb (is_directory ev) && PyStr.endswith (src_path ev) ".txt"
  then
    let filename :=
      PyStr.replace ".txt" "" (posixpath.basename (src_path ev)) in
    media_file_path ← find_media filename order ;
    match media_file_path with
    | Some p => if PyStr.truthy p then queue_put (Some p) else mret tt
    | None => mret tt
    end
  else mret tt.

End Pipeline.

(** ** The program as a system of processes

    [__main__] runs the scan, then starts the workers as
    [multiprocessing.Process]es and the watcher as a thread of the main
    process.  A worker process has its own [processed_files]: a copy of the
    parent's under the [fork] start method, and the module's initial
    [set()] under [spawn], where the child imports the module afresh and
    skips the [__main__] block. *)

Inductive start_method : Type := Fork | Spawn.

Record system : Type := System {
  shared : world;
  main_process : process;
  workers : list process
}.

Definition NUM_WORKERS (cpu_count : nat) : nat := Nat.min 4 cpu_count.

Definition start_worker (how : start_method) (parent : process) : process :=
  Process (match how with
           | Fork => processed_files parent
           | Spawn => ∅
           end) [].

Definition initial_system (t : list directory) (l : ledger_file) : system :=
  System (World t l []) (Process ∅ []) [].

(** Run a computation in the main process (the scan, a watcher handler). *)
Definition in_main {A} (m : M A) (s : system) : outcome system :=
  match m (main_process s, shared s) with
  | (Returns _, (pr, w)) => Returns (System w pr (workers s))
  | (Raises e, _) => Raises e
  end.

(** Run a computation in worker [i]. *)
Definition in_worker {A} (i : nat) (m : M A) (s : system) : outcome system :=
  match workers s !! i with
  | None => Returns s
  | Some pr0 =>
      match m (pr0, shared s) with
      | (Returns _, (pr, w)) =>
          Returns (System w (main_process s) (<[i := pr]> (workers s)))
      | (Raises e, _) => Raises e
      end
  end.

Inductive action : Type :=
  | Startup (how : start_method) (cpu_count : nat)
      (* the scan, then [NUM_WORKERS] workers are started *)
  | WorkerTurn (i : nat)            (* worker [i] runs its loop body once *)
  | Created (ev : event)            (* the watcher delivers an event *)
  | Moved (ev : event)
  | Deleted (order : list string) (ev : event)
  | Rescan                          (* the scan once more, in the main process *)
  | Interrupt (cpu_count : nat)     (* Ctrl-C: one sentinel per worker *)
  | OutsideWrite (p text : string)  (* somebody else writes a file *)
  | OutsideRemove (p : string).     (* somebody else removes a file *)

Section System.
Variable engine : string → option string.

Definition step (a : action) (s : system) : outcome system :=
  match a with
  | Startup how cpu_count =>
      match in_main process_untranscribed_files s with
      | Returns s' =>
          Returns (System (shared s') (main_process s')
                     (replicate (NUM_WORKERS cpu_count)
                        (start_worker how (main_process s'))))
      | Raises e => Raises e
      end
  | WorkerTurn i => in_worker i (worker_iteration engine) s
  | Created ev => in_main (on_created ev) s
  | Moved ev => in_main (on_moved ev) s
  | Deleted order ev => in_main (on_deleted order ev) s
  | Rescan => in_main process_untranscribed_files s
  | Interrupt cpu_count =>
      in_main (for_each (replicate (NUM_WORKERS cpu_count) tt)
                 (λ _, queue_put None)) s
  | OutsideWrite p text =>
      match write_file (tree (shared s)) p text with
      | Returns t =>
          Returns (System (World t (ledger (shared s)) (task_queue (shared s)))
                     (main_process s) (workers s))
      | Raises e => Returns s
      end
  | OutsideRemove p =>
      Returns (System (World (remove_file (tree (shared s)) p)
                         (ledger (shared s)) (task_queue (shared s)))
                 (main_process s) (workers s))
  end.

Fixpoint run (l : list action) (s : system) : outcome system :=
  match l with
  | [] => Returns s
  | a :: rest =>
      match step a s with
      | Returns s' => run rest s'
      | Raises e => Raises e
      end
  end.

End System.

(** ** Vocabulary for the statements *)

(** The calls a computation added to a history. *)
Definition new_calls (before after : list call) : list call :=
  drop (length before) after.

(** The calls that do the work of a job. *)
Definition is_work (c : call) : bool :=
  match c with
  | Transcribe _ | WriteText _ _ | SetAdd _ | LedgerDump _ => true
  | PathExists _ | Sleep _ | QueuePut _ => false
  end.


Definition is_dump (c : call) : bool :=
  match c with
  | LedgerDump _ => true
  | _ => false
  end.

(** A job was skipped: the world and the set are as before, and no engine
    call, write, set update or ledger dump was made. *)
Definition skipped (before after : process * world) : Prop :=
  after.2 = before.2
  ∧ processed_files after.1 = processed_files before.1
  ∧ existsb is_work (new_calls (history before.1) (history after.1)) = false.

(** What [json.load] followed by [set(...)] gives back for a ledger that
    holds the set [s]. *)
Definition holds (l : ledger_file) (s : gset key) : Prop :=
  l = Document (JArr (key_json <$> elements s)).

(** The paths one run of the scan puts on the queue, read off its two
    loops: per directory of the walk, the files with a supported name
    whose transcript is not in the tree. *)
Fixpoint wanted_files (t : list directory) (root : string)
    (files : list string) : list string :=
  match files with
  | [] => []
  | file :: rest =>
      let file_path := posixpath.join root file in
      if supported file && negb (exists_in t (get_transcription_path file_path))
      then file_path :: wanted_files t root rest
      else wanted_files t root rest
  end.

Fixpoint wanted (t : list directory) (walk : list (string * list string))
  : list string :=
  match walk with
  | [] => []
  | entry :: rest => wanted_files t (fst entry) (snd entry) ++ wanted t rest
  end.

Definition untranscribed (t : list directory) : list string :=
  wanted t (os_walk t MONITORED_FOLDER).

(** Whatever a computation puts on the queue is a job for a path that
    passes the supported-media test. *)
Definition only_puts_supported (m : M unit) : Prop :=
  ∀ pr w out pr' w', m (pr, w) = (out, (pr', w')) →
    ∃ new, task_queue w' = task_queue w ++ new
           ∧ ∀ j, j ∈ new → ∃ p, j = Some p ∧ supported p = true.

(** The entries of the ledger file, when it holds a JSON array. *)
Definition persisted (l : ledger_file) : list json :=
  match l with
  | Document (JArr items) => items
  | _ => []
  end.

(** ** Scenarios *)

(** A deterministic stand-in for the engine. *)
Definition echo_engine (p : string) : option string := Some ("text of " +:+ p).

(** A notification about a regular file. *)
Definition file_event (p : string) : event := Event false p "".

(** A notification about a directory. *)
Definition directory_event (p : string) : event := Event true p p.

Definition empty_folder : list directory := [Directory "media_files" []].

Definition one_clip : list directory :=
  [Directory "media_files" [("clip.mp4", "video")]].

Definition nested_clip : list directory :=
  [Directory "media_files" [];
   Directory "media_files/sub" [("clip.mp4", "video")]].

Definition hidden_name : list directory :=
  [Directory "media_files" [(".mp3", "audio")]].

Definition txt_in_name : list directory :=
  [Directory "media_files" [("my.txt.mp3", "audio")]].

(** The example of the specification: one clip, scanned, transcribed,
    scanned again, its transcript removed and the removal announced. *)
Definition clip_story : list action :=
  [Startup Fork 2;
   WorkerTurn 0;
   Rescan;
   OutsideRemove "media_files/clip.txt";
   Deleted SUPPORTED_FORMATS (file_event "media_files/clip.txt")].

(** A file arrives after start-up and is announced twice; worker 0 takes
    the first job. *)
Definition announced_twice : list action :=
  [Startup Fork 2;
   OutsideWrite "media_files/a.mp3" "audio";
   Created (file_event "media_files/a.mp3");
   Created (file_event "media_files/a.mp3");
   WorkerTurn 0].


(** The candidates [on_deleted] probes for a deleted transcript, in
    iteration order. *)
Definition candidates (order : list string) (transcript : string)
  : list string :=
  (λ ext, posixpath.join MONITORED_FOLDER
            (PyStr.replace ".txt" "" (posixpath.basename transcript) +:+ ext))
  <$> order.

(** ** Further vocabulary and scenarios *)


(** An engine that fails on every file. *)
Definition broken_engine (p : string) : option string := None.


Definition clip_and_transcript : list directory :=
  [Directory "media_files" [("clip.mp4", "video"); ("clip.txt", "words")]].

(** * Facts about the string primitives *)

Section StringFacts.
Import PyStr.

Lemma str_app_cons a s t : String a s +:+ t = String a (s +:+ t).
Proof. reflexivity. Qed.

Lemma str_app_empty_l t : "" +:+ t = t.
Proof. reflexivity. Qed.

Lemma str_app_empty_r s : s +:+ "" = s.
Proof. induction s as [|a s IH]; [done|]. by rewrite str_app_cons, IH. Qed.

Lemma str_app_assoc s t u : (s +:+ t) +:+ u = s +:+ (t +:+ u).
Proof. induction s as [|a s IH]; [done|]. by rewrite !str_app_cons, IH. Qed.

Lemma str_length_app s t :
  String.length (s +:+ t) = (String.length s + String.length t)%nat.
Proof. induction s as [|a s IH]; [done|]. rewrite str_app_cons. simpl. by rewrite IH. Qed.

Lemma str_app_eq_empty s t : s +:+ t = "" → s = "" ∧ t = "".
Proof. destruct s; [done|]. by rewrite str_app_cons. Qed.

Lemma str_take_app h t : take (String.length h) (h +:+ t) = h.
Proof. induction h as [|a h IH]; [by destruct t|]. rewrite str_app_cons. simpl. by rewrite IH. Qed.

Lemma str_drop_app h t : drop (String.length h) (h +:+ t) = t.
Proof. induction h as [|a h IH]; [by destruct t|]. by rewrite str_app_cons. Qed.

Lemma str_take_0 s : take 0 s = "".
Proof. by destruct s. Qed.

Lemma str_drop_0 s : drop 0 s = s.
Proof. by destruct s. Qed.

Lemma str_take_drop s n : take n s +:+ drop n s = s.
Proof.
  revert n. induction s as [|a s IH]; intros n; destruct n as [|n]; try done.
  simpl. by rewrite str_app_cons, IH.
Qed.

(** *** [rfind] *)

Lemma rfind_lower c s : -1 ≤ rfind c s.
Proof.
  induction s as [|a s IH]; simpl; [lia|].
  destruct (Z.leb_spec 0 (rfind c s)); [lia|]. destruct (Ascii.eqb a c); lia.
Qed.

Lemma rfind_upper c s : rfind c s < len s.
Proof.
  unfold len. induction s as [|a s IH]; simpl String.length; simpl rfind; [lia|].
  destruct (Z.leb_spec 0 (rfind c s)); [lia|]. destruct (Ascii.eqb a c); lia.
Qed.

Lemma rfind_cons_absent c a s :
  rfind c (String a s) = -1 ↔ a ≠ c ∧ rfind c s = -1.
Proof.
  simpl. pose proof (rfind_lower c s).
  destruct (Z.leb_spec 0 (rfind c s)).
  - split; [lia|]. intros [_ ?]. lia.
  - destruct (Ascii.eqb_spec a c); split; try lia; try tauto.
    intros _. split; [done|lia].
Qed.

Lemma rfind_app_absent c s t :
  rfind c t = -1 → rfind c (s +:+ t) = rfind c s.
Proof.
  intros Ht. induction s as [|a s IH]; [done|].
  rewrite str_app_cons. simpl. by rewrite IH.
Qed.

Lemma rfind_app_found c s t :
  rfind c t = -1 → rfind c (s +:+ String c t) = len s.
Proof.
  intros Ht. unfold len. induction s as [|a s IH].
  - rewrite str_app_empty_l. simpl. rewrite Ht. simpl. by rewrite Ascii.eqb_refl.
  - rewrite str_app_cons. simpl rfind. rewrite IH. simpl String.length.
    destruct (Z.leb_spec 0 (Z.of_nat (String.length s))); lia.
Qed.

Lemma rfind_split c s :
  0 ≤ rfind c s →
  ∃ h t, s = h +:+ String c t ∧ rfind c t = -1 ∧ rfind c s = len h.
Proof.
  induction s as [|a s IH]; simpl; [lia|].
  destruct (Z.leb_spec 0 (rfind c s)) as [Hge|Hlt].
  - intros _. destruct (IH Hge) as (h & t & -> & Ht & Hi).
    exists (String a h), t. split; [done|]. split; [done|].
    rewrite Hi. unfold len. simpl String.length. lia.
  - destruct (Ascii.eqb_spec a c) as [->|]; [|lia]. intros _.
    exists "", s. split; [done|]. pose proof (rfind_lower c s).
    split; [lia|done].
Qed.

Lemma rfind_app_absent_both c s t :
  rfind c s = -1 → rfind c t = -1 → rfind c (s +:+ t) = -1.
Proof. intros Hs Ht. by rewrite rfind_app_absent. Qed.

Lemma rfind_app_absent_inv c s t :
  rfind c (s +:+ t) = -1 → rfind c s = -1 ∧ rfind c t = -1.
Proof.
  induction s as [|a s IH]; [done|]. rewrite str_app_cons.
  rewrite !rfind_cons_absent. intros [? H]. apply IH in H. tauto.
Qed.

Lemma rfind_take_absent c n s : rfind c s = -1 → rfind c (take n s) = -1.
Proof.
  intros H. rewrite <- (str_take_drop s n) in H.
  by apply rfind_app_absent_inv in H as [? _].
Qed.

(** *** [all_char], [rstrip], [endswith], [startswith] *)

Lemma all_char_app c s t : all_char c (s +:+ t) = all_char c s && all_char c t.
Proof.
  induction s as [|a s IH]; [done|]. rewrite str_app_cons. simpl.
  by rewrite IH, andb_assoc.
Qed.

Lemma endswith_empty suf : endswith "" suf = String.eqb "" suf.
Proof. simpl. by rewrite orb_false_r. Qed.

Lemma endswith_cons a r suf :
  endswith (String a r) suf = String.eqb (String a r) suf || endswith r suf.
Proof. reflexivity. Qed.

Lemma endswith_refl s : endswith s s = true.
Proof. destruct s; [done|]. by rewrite endswith_cons, String.eqb_refl. Qed.

Lemma endswith_app x suf : endswith (x +:+ suf) suf = true.
Proof.
  induction x as [|a x IH].
  - rewrite str_app_empty_l. apply endswith_refl.
  - rewrite str_app_cons, endswith_cons, IH. by rewrite orb_true_r.
Qed.

Lemma endswith_inv s suf : endswith s suf = true → ∃ x, s = x +:+ suf.
Proof.
  induction s as [|a s IH].
  - rewrite endswith_empty. intros <-%String.eqb_eq. by exists "".
  - rewrite endswith_cons.
    intros [<-%String.eqb_eq|H]%orb_true_iff; [by exists ""|].
    destruct (IH H) as [x ->]. by exists (String a x).
Qed.

Lemma endswith_iff s suf : endswith s suf = true ↔ ∃ x, s = x +:+ suf.
Proof. split; [apply endswith_inv|]. intros [x ->]. apply endswith_app. Qed.

Lemma endswith_app_l x s suf : endswith s suf = true → endswith (x +:+ s) suf = true.
Proof.
  intros [y ->]%endswith_inv. rewrite <- str_app_assoc. apply endswith_app.
Qed.

Lemma rstrip_app_char c s : rstrip c (s +:+ String c "") = rstrip c s.
Proof.
  induction s as [|a s IH].
  - rewrite str_app_empty_l. simpl. by rewrite Ascii.eqb_refl.
  - rewrite str_app_cons. simpl. by rewrite IH.
Qed.

Lemma rstrip_all_char c s : all_char c s = true → rstrip c s = "".
Proof.
  induction s as [|a s IH]; [done|]. simpl.
  intros [Ha Hs]%andb_true_iff. by rewrite (IH Hs), Ha.
Qed.

Lemma rstrip_not_all_char c s : all_char c s = false → rstrip c s ≠ "".
Proof.
  induction s as [|a s IH]; [done|]. simpl. intros H.
  destruct (rstrip c s) eqn:E; [|done].
  destruct (Ascii.eqb a c); [|done]. simpl in H. by apply IH in H.
Qed.

Lemma rstrip_no_trailing c s : endswith (rstrip c s) (String c "") = false.
Proof.
  induction s as [|a s IH]; [done|]. simpl.
  destruct (rstrip c s) as [|b r] eqn:E.
  - destruct (Ascii.eqb a c) eqn:Ea; [done|]. simpl. by rewrite Ea.
  - simpl in *. rewrite IH. rewrite orb_false_r.
    apply andb_false_iff. right. by destruct r.
Qed.

Lemma rstrip_fixed c s : endswith s (String c "") = false → rstrip c s = s.
Proof.
  induction s as [|a s IH]; [done|]. simpl.
  intros [H1 H2]%orb_false_iff. rewrite (IH H2).
  destruct s; [|done]. simpl in H1. destruct (Ascii.eqb a c); [done|done].
Qed.

Lemma startswith_absent c s : rfind c s = -1 → startswith s (String c "") = false.
Proof.
  destruct s as [|a s]; [done|]. intros [Ha _]%rfind_cons_absent.
  unfold startswith. simpl. destruct (ascii_dec c a); [congruence|done].
Qed.

End StringFacts.

(** * Facts about [posixpath] *)

Section PathFacts.
Import PyStr posixpath.

Lemma slice_from_0 p : slice_from 0 p = p.
Proof. apply str_drop_0. Qed.

Lemma slice_to_0 p : slice_to 0 p = "".
Proof. apply str_take_0. Qed.

Lemma slice_to_len h t : slice_to (len h) (h +:+ t) = h.
Proof. unfold slice_to, len. rewrite Nat2Z.id. apply str_take_app. Qed.

Lemma slice_from_len h t : slice_from (len h) (h +:+ t) = t.
Proof. unfold slice_from, len. rewrite Nat2Z.id. apply str_drop_app. Qed.

Lemma len_app_char h c : len h + 1 = len (h +:+ String c "").
Proof. unfold len. rewrite str_length_app. simpl. lia. Qed.

Lemma app_char_assoc h c t : (h +:+ String c "") +:+ t = h +:+ String c t.
Proof. by rewrite str_app_assoc. Qed.

Lemma basename_sep_free p : rfind sep p = -1 → basename p = p.
Proof. unfold basename. intros ->. apply slice_from_0. Qed.

Lemma basename_split h t :
  rfind sep t = -1 → basename (h +:+ String sep t) = t.
Proof.
  intros Ht. unfold basename. rewrite (rfind_app_found _ _ _ Ht).
  rewrite (len_app_char h sep), <- (app_char_assoc h sep t).
  apply slice_from_len.
Qed.

Lemma dirname_sep_free p : rfind sep p = -1 → dirname p = "".
Proof. unfold dirname. intros ->. by rewrite slice_to_0. Qed.

Lemma dirname_split h t :
  rfind sep t = -1 →
  dirname (h +:+ String sep t)
  = if all_char sep h then h +:+ String sep "" else rstrip sep h.
Proof.
  intros Ht. unfold dirname. rewrite (rfind_app_found _ _ _ Ht).
  rewrite (len_app_char h sep), <- (app_char_assoc h sep t), slice_to_len.
  rewrite all_char_app. simpl all_char. rewrite andb_true_r.
  assert (truthy (h +:+ String sep "") = true) as ->.
  { unfold truthy. apply negb_true_iff, String.eqb_neq.
    intros E. by apply str_app_eq_empty in E as [_ ?]. }
  destruct (all_char sep h); simpl; [done|]. apply rstrip_app_char.
Qed.

Lemma basename_absent p : rfind sep (basename p) = -1.
Proof.
  pose proof (rfind_lower sep p) as Hlo.
  destruct (decide (rfind sep p = -1)) as [E|E].
  - by rewrite basename_sep_free.
  - destruct (rfind_split sep p) as (h & t & -> & Ht & _); [lia|].
    by rewrite basename_split.
Qed.

Lemma splitext_fst_absent c p :
  rfind c p = -1 → rfind c (fst (splitext p)) = -1.
Proof.
  intros H. unfold splitext.
  destruct (_ && _); simpl; [|done]. by apply rfind_take_absent.
Qed.

Lemma join_empty b : join "" b = b.
Proof. unfold join. simpl. by rewrite orb_true_r. Qed.

Lemma join_trailing a b :
  rfind sep b = -1 → a ≠ "" → endswith a (String sep "") = true →
  join a b = a +:+ b.
Proof.
  intros Hb Ha He. unfold join. rewrite (startswith_absent _ _ Hb), He.
  assert (truthy a = true) as ->; [|done].
  by apply negb_true_iff, String.eqb_neq.
Qed.

Lemma join_plain a b :
  rfind sep b = -1 → a ≠ "" → endswith a (String sep "") = false →
  join a b = a +:+ String sep b.
Proof.
  intros Hb Ha He. unfold join. rewrite (startswith_absent _ _ Hb), He.
  assert (truthy a = true) as ->; [|done].
  by apply negb_true_iff, String.eqb_neq.
Qed.

(** The three shapes [dirname] can take. *)
Lemma dirname_shape p :
  dirname p = ""
  ∨ (dirname p ≠ "" ∧ all_char sep (dirname p) = true
     ∧ endswith (dirname p) (String sep "") = true)
  ∨ (dirname p ≠ "" ∧ all_char sep (dirname p) = false
     ∧ endswith (dirname p) (String sep "") = false).
Proof.
  pose proof (rfind_lower sep p) as Hlo.
  destruct (decide (rfind sep p = -1)) as [E|E].
  - left. by apply dirname_sep_free.
  - right. destruct (rfind_split sep p) as (h & t & -> & Ht & _); [lia|].
    rewrite (dirname_split _ _ Ht). destruct (all_char sep h) eqn:Hall.
    + left. split; [|split].
      * intros E'. by apply str_app_eq_empty in E' as [_ ?].
      * by rewrite all_char_app, Hall.
      * apply endswith_app.
    + right. split; [|split].
      * by apply rstrip_not_all_char.
      * destruct (all_char sep (rstrip sep h)) eqn:E'; [|done].
        apply rstrip_all_char in E'.
        rewrite (rstrip_fixed _ _ (rstrip_no_trailing sep h)) in E'.
        by apply rstrip_not_all_char in Hall.
      * apply rstrip_no_trailing.
Qed.

(** Joining a directory name with a separator-free component and taking
    the result apart again gives the two back. *)
Lemma dirname_join p b :
  rfind sep b = -1 → dirname (join (dirname p) b) = dirname p.
Proof.
  intros Hb. destruct (dirname_shape p) as [E|[(Hne & Hall & He)|(Hne & Hall & He)]].
  - rewrite E, join_empty. by apply dirname_sep_free.
  - rewrite (join_trailing _ _ Hb Hne He).
    destruct (endswith_inv _ _ He) as [h Eh]. rewrite Eh in *.
    rewrite app_char_assoc, (dirname_split _ _ Hb).
    rewrite all_char_app in Hall. apply andb_true_iff in Hall as [-> _]. done.
  - rewrite (join_plain _ _ Hb Hne He), (dirname_split _ _ Hb), Hall.
    by apply rstrip_fixed.
Qed.

Lemma basename_join p b :
  rfind sep b = -1 → basename (join (dirname p) b) = b.
Proof.
  intros Hb. destruct (dirname_shape p) as [E|[(Hne & Hall & He)|(Hne & Hall & He)]].
  - rewrite E, join_empty. by apply basename_sep_free.
  - rewrite (join_trailing _ _ Hb Hne He).
    destruct (endswith_inv _ _ He) as [h Eh]. rewrite Eh.
    rewrite app_char_assoc. by apply basename_split.
  - rewrite (join_plain _ _ Hb Hne He). by apply basename_split.
Qed.

Lemma stem_absent p : rfind sep (stem p) = -1.
Proof. apply splitext_fst_absent, basename_absent. Qed.

Lemma txt_name_absent s : rfind sep s = -1 → rfind sep (s +:+ ".txt") = -1.
Proof. intros H. by apply rfind_app_absent_both. Qed.

Lemma get_transcription_path_unfold p :
  get_transcription_path p = join (dirname p) (stem p +:+ ".txt").
Proof. reflexivity. Qed.

(** [splitext] on a name made of a root and one of the program's dotted
    suffixes. *)
Lemma splitext_suffix x ext :
  rfind extsep ext = 0 → rfind sep ext = -1 →
  splitext (x +:+ ext)
  = if all_char extsep (basename x) then (x +:+ ext, "") else (x, ext).
Proof.
  intros Hdot Hsep. destruct ext as [|c e]; [done|].
  assert (c = extsep ∧ rfind extsep e = -1) as [-> He].
  { simpl in Hdot. pose proof (rfind_lower extsep e).
    destruct (Z.leb_spec 0 (rfind extsep e)); [lia|].
    destruct (Ascii.eqb_spec c extsep); [split; [done|lia]|lia]. }
  unfold splitext. rewrite (rfind_app_found _ _ _ He).
  rewrite (rfind_app_absent _ _ _ Hsep).
  pose proof (rfind_upper sep x) as Hup. pose proof (rfind_lower sep x) as Hlo.
  assert ((rfind sep x <? len x) = true) as -> by lia. simpl andb.
  assert (slice_to (len x - (rfind sep x + 1))
            (slice_from (rfind sep x + 1) (x +:+ String extsep e))
          = basename x) as ->.
  { destruct (decide (rfind sep x = -1)) as [E|E].
    - rewrite E, (basename_sep_free _ E). simpl. rewrite slice_from_0, Z.sub_0_r.
      apply slice_to_len.
    - destruct (rfind_split sep x) as (h & t & Ex & Ht & Hi); [lia|].
      assert (basename x = t) as -> by (rewrite Ex; by apply basename_split).
      assert (x +:+ String extsep e
              = (h +:+ String sep "") +:+ (t +:+ String extsep e)) as ->.
      { rewrite Ex. by rewrite !str_app_assoc. }
      rewrite Hi, (len_app_char h sep), slice_from_len.
      replace (len x - len (h +:+ String sep "")) with (len t).
      + apply slice_to_len.
      + rewrite Ex. unfold len. rewrite !str_length_app. simpl. lia. }
  destruct (all_char extsep (basename x)); simpl; [done|].
  by rewrite slice_to_len, slice_from_len.
Qed.

Lemma stem_txt s :
  rfind sep s = -1 →
  fst (splitext (s +:+ ".txt")) = if all_char extsep s then s +:+ ".txt" else s.
Proof.
  intros Hs. rewrite splitext_suffix by done.
  rewrite (basename_sep_free _ Hs). by destruct (all_char extsep s).
Qed.

Lemma join_endswith a b suf :
  endswith b suf = true → endswith (join a b) suf = true.
Proof.
  intros H. unfold join. destruct (_ || _); [done|].
  destruct (endswith a _); [by apply endswith_app_l|].
  apply endswith_app_l. by apply (endswith_app_l (String sep "")).
Qed.

(** Every transcript path ends in [".txt"], so none is the ledger file. *)
Lemma transcript_path_not_ledger p :
  get_transcription_path p ≠ PROCESSED_FILES_DB.
Proof.
  intros E.
  assert (endswith (get_transcription_path p) ".txt" = true) as H.
  { rewrite get_transcription_path_unfold. apply join_endswith, endswith_app. }
  rewrite E in H. discriminate H.
Qed.

End PathFacts.

(** * The path resolver *)

Section Resolver.
Import PyStr posixpath.

(** C7.  For every media path, the transcript path lies in the same
    directory ([dirname] is unchanged) and its file name is the stem of
    the media path followed by [".txt"].  [get_transcription_path] is a
    total function from strings to strings: it reads no state and has no
    error case. *)
Theorem get_transcription_path_same_directory_stem_txt (file_path : string) :
  dirname (get_transcription_path file_path) = dirname file_path
  ∧ basename (get_transcription_path file_path) = stem file_path +:+ ".txt".
Proof.
  rewrite get_transcription_path_unfold.
  pose proof (txt_name_absent _ (stem_absent file_path)) as Hfile.
  split; [by apply dirname_join|by apply basename_join].
Qed.

Lemma get_transcription_path_twice p :
  get_transcription_path (get_transcription_path p)
  = join (dirname p)
      ((if all_char extsep (stem p) then stem p +:+ ".txt" else stem p)
       +:+ ".txt").
Proof.
  pose proof (txt_name_absent _ (stem_absent p)) as Hfile.
  rewrite (get_transcription_path_unfold (get_transcription_path p)).
  unfold stem at 1.
  rewrite (get_transcription_path_unfold p).
  rewrite (dirname_join _ _ Hfile), (basename_join _ _ Hfile).
  by rewrite (stem_txt _ (stem_absent p)).
Qed.

(** C9, as the code has it.  Resolving a transcript path again gives the
    same path whenever the stem of the original path has a character
    other than a dot. *)
Theorem get_transcription_path_idempotent (p : string) :
  all_char extsep (stem p) = false →
  get_transcription_path (get_transcription_path p) = get_transcription_path p.
Proof.
  intros Hstem. rewrite get_transcription_path_twice, Hstem.
  by rewrite get_transcription_path_unfold.
Qed.

Lemma get_transcription_path_idempotent_witness :
  all_char extsep (stem "media_files/clip.mp4") = false
  ∧ get_transcription_path (get_transcription_path "media_files/clip.mp4")
    = get_transcription_path "media_files/clip.mp4".
Proof.
  split; [reflexivity|].
  apply (get_transcription_path_idempotent "media_files/clip.mp4"). reflexivity.
Defined.

(** C9, as stated, fails on a file whose name is made of dots only: the
    second application appends [".txt"] once more. *)
Lemma get_transcription_path_not_idempotent :
  get_transcription_path (get_transcription_path "media_files/...")
  ≠ get_transcription_path "media_files/...".
Proof. vm_compute. discriminate. Qed.

End Resolver.

(** * Running computations *)

Section MonadFacts.

Lemma bind_run {A B} (m : M A) (f : A → M B) st :
  (m ≫= f) st
  = match m st with
    | (Returns a, st') => f a st'
    | (Raises e, st') => (Raises e, st')
    end.
Proof. reflexivity. Qed.

Lemma ret_run {A} (a : A) st : (mret a : M A) st = (Returns a, st).
Proof. reflexivity. Qed.

Lemma record_run c ps h w :
  record c (Process ps h, w) = (Returns tt, (Process ps (h ++ [c]), w)).
Proof. reflexivity. Qed.

Lemma path_exists_run p ps h w :
  path_exists p (Process ps h, w)
  = (Returns (exists_in (tree w) p), (Process ps (h ++ [PathExists p]), w)).
Proof. reflexivity. Qed.

Lemma in_processed_run p ps h w :
  in_processed p (Process ps h, w)
  = (Returns (bool_decide (KStr p ∈ ps)), (Process ps h, w)).
Proof. reflexivity. Qed.

Lemma queue_put_run job ps h t l q :
  queue_put job (Process ps h, World t l q)
  = (Returns tt, (Process ps (h ++ [QueuePut job]), World t l (q ++ [job]))).
Proof. reflexivity. Qed.

Lemma processed_add_run p ps h w :
  processed_add p (Process ps h, w)
  = (Returns tt, (Process ({[KStr p]} ∪ ps) (h ++ [SetAdd p]), w)).
Proof. reflexivity. Qed.

Lemma save_processed_files_run ps h t l q :
  save_processed_files (Process ps h, World t l q)
  = (Returns tt, (Process ps (h ++ [LedgerDump (elements ps)]),
                  World t (Document (JArr (key_json <$> elements ps))) q)).
Proof. reflexivity. Qed.

Lemma save_transcription_run tp text ps h t l q :
  save_transcription tp text (Process ps h, World t l q)
  = match write_file t tp text with
    | Returns t' =>
        (Returns tt, (Process ps (h ++ [WriteText tp text]), World t' l q))
    | Raises e =>
        (Raises e,
         (Process ps (h ++ [WriteText tp text]),
          World (tree_after_failed_write t tp) l q))
    end.
Proof.
  unfold save_transcription, write_file, tree_after_failed_write.
  rewrite bind_run, record_run.
  unfold mbind, M_bind, get_tree, lift, set_tree, raise. simpl.
  destruct (open_for_write t tp); [|done]. simpl.
  by destruct (device_full t tp && PyStr.truthy text).
Qed.

End MonadFacts.

(** * The worker *)

Section Worker.
Variable engine : string → option string.

Lemma transcribe_run p ps h w :
  transcribe engine p (Process ps h, w)
  = match engine p with
    | Some text => (Returns text, (Process ps (h ++ [Transcribe p]), w))
    | None => (Raises EngineError, (Process ps (h ++ [Transcribe p]), w))
    end.
Proof.
  unfold transcribe. rewrite bind_run, record_run. by destruct (engine p).
Qed.

(** A job is skipped: nothing but the existence test happens. *)
Lemma handle_job_skip p ps h w :
  KStr p ∈ ps → exists_in (tree w) (get_transcription_path p) = true →
  handle_job engine p (Process ps h, w)
  = (Returns true,
     (Process ps (h ++ [PathExists (get_transcription_path p)]), w)).
Proof.
  intros Hin Hex. unfold handle_job.
  rewrite bind_run, in_processed_run, bool_decide_true by done.
  rewrite bind_run. unfold and_then. rewrite path_exists_run, Hex. done.
Qed.

(** A job is not skipped: the engine is called; its text is written, the
    path added and the ledger dumped, unless the engine or the write
    raises. *)
Lemma handle_job_process p ps h t l q :
  bool_decide (KStr p ∈ ps) && exists_in t (get_transcription_path p) = false →
  let tp := get_transcription_path p in
  let pre := if bool_decide (KStr p ∈ ps) then [PathExists tp] else [] in
  handle_job engine p (Process ps h, World t l q)
  = match engine p with
    | None =>
        (Raises EngineError,
         (Process ps (h ++ pre ++ [Transcribe p]), World t l q))
    | Some text =>
        match write_file t tp text with
        | Raises e =>
            (Raises e,
             (Process ps (h ++ pre ++ [Transcribe p; WriteText tp text]),
              World (tree_after_failed_write t tp) l q))
        | Returns t' =>
            (Returns true,
             (Process ({[KStr p]} ∪ ps)
                (h ++ pre ++ [Transcribe p; WriteText tp text; SetAdd p;
                              LedgerDump (elements ({[KStr p]} ∪ ps))]),
              World t' (Document (JArr (key_json <$> elements ({[KStr p]} ∪ ps))))
                q))
        end
    end.
Proof.
  intros Hno tp pre. unfold handle_job. fold tp.
  rewrite bind_run, in_processed_run, bind_run. unfold and_then.
  assert (∀ h',
    (transcript ← transcribe engine p ;
     save_transcription tp transcript ;;
     processed_add p ;; save_processed_files ;; mret true)
      (Process ps h', World t l q)
    = match engine p with
      | None =>
          (Raises EngineError, (Process ps (h' ++ [Transcribe p]), World t l q))
      | Some text =>
          match write_file t tp text with
          | Raises e =>
              (Raises e,
               (Process ps (h' ++ [Transcribe p; WriteText tp text]),
                World (tree_after_failed_write t tp) l q))
          | Returns t' =>
              (Returns true,
               (Process ({[KStr p]} ∪ ps)
                  (h' ++ [Transcribe p; WriteText tp text; SetAdd p;
                          LedgerDump (elements ({[KStr p]} ∪ ps))]),
                World t' (Document (JArr (key_json <$> elements ({[KStr p]} ∪ ps))))
                  q))
          end
      end) as Hrest.
  { intros h'. rewrite bind_run, transcribe_run.
    destruct (engine p) as [text|]; [|done].
    rewrite bind_run, save_transcription_run.
    destruct (write_file t tp text) as [t'|e].
    - rewrite bind_run, processed_add_run, bind_run, save_processed_files_run.
      rewrite ret_run. by rewrite <- !(assoc_L (++)).
    - by rewrite <- !(assoc_L (++)). }
  subst pre. destruct (bool_decide (KStr p ∈ ps)) eqn:Hin.
  - rewrite path_exists_run. simpl in Hno. fold tp in Hno. cbn [tree].
    rewrite Hno, Hrest. destruct (engine p) as [text|].
    + destruct (write_file t tp text); by rewrite <- (assoc_L (++)).
    + by rewrite <- (assoc_L (++)).
  - rewrite ret_run. rewrite Hrest. done.
Qed.

Lemma worker_iteration_job p ps h t l q :
  worker_iteration engine (Process ps h, World t l (Some p :: q))
  = match handle_job engine p (Process ps h, World t l q) with
    | (Raises _, st') => (Returns true, st')
    | r => r
    end.
Proof. reflexivity. Qed.

Lemma worker_iteration_sentinel ps h t l q :
  worker_iteration engine (Process ps h, World t l (None :: q))
  = (Returns false, (Process ps h, World t l q)).
Proof. reflexivity. Qed.

Lemma worker_iteration_idle ps h t l :
  worker_iteration engine (Process ps h, World t l [])
  = (Returns true, (Process ps h, World t l [])).
Proof. reflexivity. Qed.

Lemma new_calls_app h added : new_calls h (h ++ added) = added.
Proof. apply drop_app_length. Qed.

End Worker.

(** * The directory tree *)

Section Tree.

Lemma has_file_put name text d : has_file (put_file name text d) name = true.
Proof.
  unfold put_file, has_file. simpl. destruct (existsb _ (dir_files d)) eqn:E.
  - apply existsb_exists in E as (f & Hf & Hname).
    apply existsb_exists. exists (name, text). split; [|apply String.eqb_refl].
    apply in_map_iff. exists f. by rewrite Hname.
  - apply existsb_exists. exists (name, text). split; [|apply String.eqb_refl].
    apply in_app_iff. right. by left.
Qed.

Lemma find_put name text d :
  List.find (fun f => String.eqb (fst f) name) (dir_files (put_file name text d))
  = Some (name, text).
Proof.
  unfold put_file, has_file. simpl. destruct (existsb _ (dir_files d)) eqn:E.
  - induction (dir_files d) as [|f fs IH]; [done|]. simpl in *.
    destruct (String.eqb (fst f) name) eqn:Hf; simpl.
    + by rewrite String.eqb_refl.
    + rewrite Hf. by apply IH.
  - induction (dir_files d) as [|f fs IH]; simpl in *.
    + by rewrite String.eqb_refl.
    + apply orb_false_iff in E as [-> E]. by apply IH.
Qed.

Lemma set_entry_is_dir t p text q :
  is_dir (set_entry t p text) q = is_dir t q.
Proof.
  unfold is_dir, set_entry. induction t as [|d t IH]; [done|].
  cbn [map existsb]. rewrite IH. f_equal.
  by destruct (String.eqb (dir_path d) (posixpath.dirname p)).
Qed.

Lemma set_entry_is_file t p text :
  is_dir t (posixpath.dirname p) = true → is_file (set_entry t p text) p = true.
Proof.
  intros Hd. apply existsb_exists in Hd as (d & Hin & Hpath).
  apply existsb_exists.
  exists (put_file (posixpath.basename p) text d). split.
  - apply in_map_iff. exists d. by rewrite Hpath.
  - apply andb_true_iff. split; [exact Hpath|apply has_file_put].
Qed.

Lemma set_entry_read t p text :
  is_dir t (posixpath.dirname p) = true →
  read_file (set_entry t p text) p = Some text.
Proof.
  unfold read_file, is_dir, set_entry.
  induction t as [|d t IH]; [done|]. cbn [map List.find existsb].
  destruct (String.eqb (dir_path d) (posixpath.dirname p)) eqn:E.
  - intros _.
    change (dir_path (put_file (posixpath.basename p) text d)) with (dir_path d).
    rewrite E. cbn [mbind option_bind]. by rewrite find_put.
  - rewrite E. cbn [orb]. apply IH.
Qed.

Lemma open_for_write_returns t p t0 :
  open_for_write t p = Returns t0 →
  is_dir t (posixpath.dirname p) = true ∧ t0 = set_entry t p "".
Proof.
  unfold open_for_write. destruct (is_dir t p); [done|].
  destruct (file_above _ t p); [done|].
  destruct (is_dir t (posixpath.dirname p)); [|done]. by intros [= <-].
Qed.

Lemma write_file_returns t p text t' :
  write_file t p text = Returns t' →
  is_dir t (posixpath.dirname p) = true
  ∧ t' = set_entry (set_entry t p "") p text.
Proof.
  unfold write_file. destruct (open_for_write t p) as [t0|e] eqn:E; [|done].
  apply open_for_write_returns in E as [Hd ->].
  destruct (_ && _); [done|]. by intros [= <-].
Qed.

Lemma write_file_is_file t p text t' :
  write_file t p text = Returns t' → is_file t' p = true.
Proof.
  intros [Hd ->]%write_file_returns. apply set_entry_is_file.
  by rewrite set_entry_is_dir.
Qed.

Lemma write_file_exists t p text t' :
  write_file t p text = Returns t' → exists_in t' p = true.
Proof.
  intros H. unfold exists_in. rewrite (write_file_is_file _ _ _ _ H).
  apply orb_true_r.
Qed.

Lemma write_file_read t p text t' :
  write_file t p text = Returns t' → read_file t' p = Some text.
Proof.
  intros [Hd ->]%write_file_returns. apply set_entry_read.
  by rewrite set_entry_is_dir.
Qed.

End Tree.

(** X5.  The worker that has transcribed a path skips the next job for
    it, as long as the transcript stays in place. *)
Lemma worker_skips_after_own_success (engine : string → option string)
    p ps h t l q text t' pr1 w1 :
  bool_decide (KStr p ∈ ps) && exists_in t (get_transcription_path p) = false →
  engine p = Some text →
  write_file t (get_transcription_path p) text = Returns t' →
  (pr1, w1) = (handle_job engine p (Process ps h, World t l q)).2 →
  handle_job engine p (pr1, w1)
  = (Returns true,
     (Process (processed_files pr1)
        (history pr1 ++ [PathExists (get_transcription_path p)]), w1)).
Proof.
  intros Hno Heng Hwrite. rewrite (handle_job_process engine p ps h t l q Hno).
  rewrite Heng, Hwrite. cbn [snd]. intros [= -> ->].
  apply handle_job_skip; cbn [processed_files tree].
  - apply elem_of_union_l. by apply elem_of_singleton.
  - by eapply write_file_exists.
Qed.

(** * Claims about the worker *)

(** C4, as the code has it.  A worker skips a dequeued job (no engine
    call, no write, set and world untouched) exactly when the path is in
    its own [processed_files] and the transcript exists.  In every other
    case it calls the engine on the path.  With the engine's text in hand
    and the write going through, the transcript holds that text, the path
    is in the worker's set and the ledger has been dumped from that set,
    in this order.  When the engine raises, or the write does, the job is
    abandoned: the set and the ledger are as before. *)
Theorem worker_duplicate_suppression (engine : string → option string)
    p ps h t l q :
  let tp := get_transcription_path p in
  let before := (Process ps h, World t l q) in
  let after := (handle_job engine p before).2 in
  let done_before := KStr p ∈ ps ∧ exists_in t tp = true in
  (skipped before after ↔ done_before)
  ∧ (¬ done_before →
       Transcribe p ∈ new_calls h (history after.1)
       ∧ (∀ text t', engine p = Some text → write_file t tp text = Returns t' →
           handle_job engine p before
           = (Returns true,
              (Process ({[KStr p]} ∪ ps)
                 (h ++ (if bool_decide (KStr p ∈ ps) then [PathExists tp] else [])
                    ++ [Transcribe p; WriteText tp text; SetAdd p;
                        LedgerDump (elements ({[KStr p]} ∪ ps))]),
               World t' (Document (JArr (key_json <$> elements ({[KStr p]} ∪ ps))))
                 q))
           ∧ read_file t' tp = Some text
           ∧ holds (ledger after.2) (processed_files after.1)
           ∧ KStr p ∈ processed_files after.1)
       ∧ (engine p = None →
           handle_job engine p before
           = (Raises EngineError,
              (Process ps
                 (h ++ (if bool_decide (KStr p ∈ ps) then [PathExists tp] else [])
                    ++ [Transcribe p]),
               World t l q)))
       ∧ (∀ text e, engine p = Some text → write_file t tp text = Raises e →
           handle_job engine p before
           = (Raises e,
              (Process ps
                 (h ++ (if bool_decide (KStr p ∈ ps) then [PathExists tp] else [])
                    ++ [Transcribe p; WriteText tp text]),
               World (tree_after_failed_write t tp) l q)))).
Proof.
  intros tp before after done_before.
  destruct (decide done_before) as [Hdone|Hnot].
  - destruct Hdone as [Hin Hex]. split; [|intros []; done].
    split; [done|]. intros _. subst after before.
    rewrite (handle_job_skip engine p ps h (World t l q) Hin Hex).
    unfold skipped. cbn [fst snd history processed_files].
    split; [done|]. split; [done|]. by rewrite new_calls_app.
  - assert (bool_decide (KStr p ∈ ps) && exists_in t tp = false) as Hno.
    { apply andb_false_iff. destruct (exists_in t tp) eqn:E; [|by right].
      left. apply bool_decide_eq_false. intros Hin. by apply Hnot. }
    pose proof (handle_job_process engine p ps h t l q Hno) as Hrun.
    cbn zeta in Hrun. fold tp in Hrun.
    assert (Transcribe p ∈ new_calls h (history after.1)
            ∧ existsb is_work (new_calls h (history after.1)) = true)
      as [Hcall Hwork].
    { subst after before. rewrite Hrun.
      destruct (engine p) as [text|]; [destruct (write_file t tp text)|];
        cbn [fst snd history]; rewrite new_calls_app; (split; [set_solver|]);
        rewrite existsb_app; simpl; apply orb_true_r. }
    split.
    + split; [|done]. intros (_ & _ & Hquiet).
      change (history before.1) with h in Hquiet. congruence.
    + intros _. split; [done|]. split; [|split].
      * intros text t' Heng Hwrite.
        subst after before. rewrite Hrun, Heng, Hwrite.
        cbn [fst snd history processed_files ledger].
        split; [done|]. split; [by eapply write_file_read|].
        split; [done|]. apply elem_of_union_l. by apply elem_of_singleton.
      * intros Heng. subst before. by rewrite Hrun, Heng.
      * intros text e Heng Hwrite. subst before. by rewrite Hrun, Heng, Hwrite.
Qed.

Lemma worker_duplicate_suppression_witness :
  let p := "media_files/clip.mp4" in
  let tp := get_transcription_path p in
  let before := (Process ∅ [], World one_clip Absent []) in
  let after := (handle_job echo_engine p before).2 in
  (skipped before after ↔ KStr p ∈ (∅ : gset key) ∧ exists_in one_clip tp = true)
  ∧ read_file (tree after.2) tp = Some "text of media_files/clip.mp4".
Proof.
  intros p tp before after.
  destruct (worker_duplicate_suppression echo_engine p ∅ [] one_clip Absent [])
    as [Hiff Hother].
  split; [exact Hiff|].
  destruct Hother as (_ & Hdone & _).
  { intros [Hin _]. by apply not_elem_of_empty in Hin. }
  destruct (Hdone ("text of " +:+ p)
              [Directory "media_files"
                 [("clip.mp4", "video"); ("clip.txt", "text of " +:+ p)]])
    as (Hrun & Hread & _); [vm_compute; reflexivity|vm_compute; reflexivity|].
  subst after before. rewrite Hrun. exact Hread.
Defined.

(** C4, as stated, fails twice over.  The set a worker consults is its
    own: after worker 0 has transcribed a file, the path is in worker 0's
    set and in the ledger and the transcript exists, yet worker 1,
    handed a job for the path, does not skip it.  And a job that is not
    skipped is not always carried through: when the engine raises,
    nothing is written, added or persisted. *)
Lemma other_workers_entry_is_not_consulted :
  let p := "media_files/a.mp3" in
  let tp := get_transcription_path p in
  (∃ s1 pr1,
     run echo_engine announced_twice (initial_system empty_folder Absent)
     = Returns s1
     ∧ (elements ∘ processed_files <$> workers s1 !! 0%nat) = Some [KStr p]
     ∧ persisted (ledger (shared s1)) = [JStr p]
     ∧ exists_in (tree (shared s1)) tp = true
     ∧ workers s1 !! 1%nat = Some pr1
     ∧ ¬ skipped (pr1, shared s1) (handle_job echo_engine p (pr1, shared s1)).2)
  ∧ handle_job broken_engine "media_files/clip.mp4"
      (Process ∅ [], World one_clip Absent [])
    = (Raises EngineError,
       (Process ∅ [Transcribe "media_files/clip.mp4"], World one_clip Absent [])).
Proof.
  intros p tp. split; [|vm_compute; reflexivity].
  eexists _, _.
  split; [vm_compute; reflexivity|].
  split; [vm_compute; reflexivity|].
  split; [vm_compute; reflexivity|].
  split; [vm_compute; reflexivity|].
  split; [vm_compute; reflexivity|].
  intros (_ & _ & Hquiet). vm_compute in Hquiet. discriminate Hquiet.
Qed.

(** C1, as the code has it.  Once a path's transcript exists and the path
    is in the dequeuing worker's own [processed_files], that worker goes
    through any number of duplicate jobs for the path without calling the
    engine or writing: each costs one existence test and nothing else. *)
Theorem worker_skips_duplicates (engine : string → option string)
    p n ps h t l rest :
  KStr p ∈ ps → exists_in t (get_transcription_path p) = true →
  transcriber_worker engine n
    (Process ps h, World t l (replicate n (Some p) ++ rest))
  = (Returns tt,
     (Process ps (h ++ replicate n (PathExists (get_transcription_path p))),
      World t l rest)).
Proof.
  intros Hin Hex. revert h. induction n as [|n IH]; intros h.
  - simpl. by rewrite (right_id_L [] (++)).
  - cbn [transcriber_worker replicate]. rewrite bind_run.
    change ((Some p :: replicate n (Some p)) ++ rest)
      with (Some p :: (replicate n (Some p) ++ rest)).
    rewrite worker_iteration_job.
    rewrite (handle_job_skip engine p ps h (World t l _) Hin Hex).
    rewrite IH. by rewrite <- (assoc_L (++)).
Qed.

Lemma worker_skips_duplicates_witness :
  let p := "media_files/clip.mp4" in
  let t := [Directory "media_files" [("clip.mp4", "video"); ("clip.txt", "words")]] in
  transcriber_worker echo_engine 3
    (Process {[KStr p]} [], World t Absent (replicate 3 (Some p) ++ [None]))
  = (Returns tt,
     (Process {[KStr p]} ([] ++ replicate 3 (PathExists (get_transcription_path p))),
      World t Absent [None])).
Proof.
  intros p t.
  apply (worker_skips_duplicates echo_engine p 3 {[KStr p]} [] t Absent [None]).
  - by apply elem_of_singleton.
  - vm_compute; reflexivity.
Defined.

(** C1, as stated, fails.  A file arrives after start-up and two jobs for
    it are queued.  Worker 0 transcribes it, so the transcript exists;
    worker 1 then takes the duplicate, does not find the path in its own
    [processed_files], calls the engine again and rewrites the
    transcript. *)
Lemma second_worker_transcribes_again :
  let p := "media_files/a.mp3" in
  let tp := get_transcription_path p in
  ∃ s1 s2,
    run echo_engine announced_twice (initial_system empty_folder Absent)
    = Returns s1
    ∧ exists_in (tree (shared s1)) tp = true
    ∧ task_queue (shared s1) = [Some p]
    ∧ step echo_engine (WorkerTurn 1) s1 = Returns s2
    ∧ history <$> workers s2 !! 1%nat
      = Some [Transcribe p; WriteText tp "text of media_files/a.mp3";
              SetAdd p; LedgerDump [KStr p]].
Proof.
  intros p tp. eexists _, _.
  split; [vm_compute; reflexivity|].
  split; [vm_compute; reflexivity|].
  split; [vm_compute; reflexivity|].
  split; [vm_compute; reflexivity|].
  vm_compute. reflexivity.
Qed.

(** * The ledger *)

Section Ledger.

Lemma json_key_json k : json_key (key_json k) = Returns k.
Proof. by destruct k. Qed.

Lemma set_of_items_keys (ks : list key) :
  set_of_items (key_json <$> ks) = Returns (list_to_set ks).
Proof.
  induction ks as [|k ks IH]; [done|].
  cbn [fmap list_fmap set_of_items]. rewrite json_key_json.
  change (list_fmap key json key_json ks) with (key_json <$> ks).
  by rewrite IH.
Qed.

(** Reading back what [save_processed_files] wrote gives the set. *)
Lemma py_set_dump (s : gset key) :
  py_set (JArr (key_json <$> elements s)) = Returns s.
Proof. simpl. by rewrite set_of_items_keys, list_to_set_elements_L. Qed.

Lemma set_of_items_raises items e : set_of_items items = Raises e → e = TypeError.
Proof.
  induction items as [|v items IH]; [done|]. simpl.
  destruct (json_key v) as [k|e0] eqn:Ek.
  - destruct (set_of_items items) as [|e'] eqn:E; [congruence|].
    intros [= <-]. by apply IH.
  - intros [= <-]. destruct v; simpl in Ek; congruence.
Qed.

Lemma py_set_raises v e : py_set v = Raises e → e = TypeError.
Proof. destruct v; simpl; try congruence. apply set_of_items_raises. Qed.

Lemma load_processed_files_run ps h t l q :
  load_processed_files (Process ps h, World t l q)
  = match l with
    | Absent => (Returns tt, (Process ps h, World t l q))
    | NotText => (Raises UnicodeDecodeError, (Process ps h, World t l q))
    | Garbled => (Returns tt, (Process ∅ h, World t l q))
    | Document v =>
        match py_set v with
        | Returns s => (Returns tt, (Process s h, World t l q))
        | Raises _ => (Raises TypeError, (Process ps h, World t l q))
        end
    end.
Proof.
  destruct l as [| | |v]; [done|done|done|].
  unfold load_processed_files. rewrite bind_run. cbn [get_ledger ledger].
  unfold try_except. rewrite bind_run, ret_run, bind_run. unfold lift.
  destruct (py_set v) as [s|e] eqn:E; [done|].
  apply py_set_raises in E as ->. done.
Qed.

(** C3 fails on the code.  A ledger file that holds well-formed JSON which
    is not a list (here the number 5) makes [load_processed_files] raise
    [TypeError]: only [JSONDecodeError] and [FileNotFoundError] are
    caught.  The exception leaves the scan, and the program stops before
    any worker is started. *)
Theorem load_raises_on_non_list_ledger :
  (∀ ps h t q,
     load_processed_files (Process ps h, World t (Document (JNum 5)) q)
     = (Raises TypeError, (Process ps h, World t (Document (JNum 5)) q)))
  ∧ run echo_engine [Startup Fork 4] (initial_system one_clip (Document (JNum 5)))
    = Raises TypeError.
Proof. split; [intros; by rewrite load_processed_files_run|reflexivity]. Qed.

(** A ledger that is not valid UTF-8 text escapes the [except] clause as
    well: reading it raises [UnicodeDecodeError]. *)
Lemma load_raises_on_non_text_ledger ps h t q :
  load_processed_files (Process ps h, World t NotText q)
  = (Raises UnicodeDecodeError, (Process ps h, World t NotText q)).
Proof. by rewrite load_processed_files_run. Qed.

(** What the [except] clause does cover. *)
Lemma load_resets_on_undecodable_ledger ps h t q :
  load_processed_files (Process ps h, World t Garbled q)
  = (Returns tt, (Process ∅ h, World t Garbled q)).
Proof. by rewrite load_processed_files_run. Qed.

Lemma load_keeps_set_without_ledger ps h t q :
  load_processed_files (Process ps h, World t Absent q)
  = (Returns tt, (Process ps h, World t Absent q)).
Proof. by rewrite load_processed_files_run. Qed.

Lemma load_after_save s ps h t q :
  load_processed_files
    (Process ps h, World t (Document (JArr (key_json <$> elements s))) q)
  = (Returns tt,
     (Process s h, World t (Document (JArr (key_json <$> elements s))) q)).
Proof. by rewrite load_processed_files_run, py_set_dump. Qed.

End Ledger.

(** * The scan *)

Section Scan.
Import posixpath.

Lemma scan_file_run root file ps h t l q :
  let file_path := join root file in
  let tp := get_transcription_path file_path in
  scan_file root file (Process ps h, World t l q)
  = if supported file
    then if exists_in t tp
         then (Returns tt, (Process ps (h ++ [PathExists tp]), World t l q))
         else (Returns tt,
               (Process ({[KStr file_path]} ∪ ps)
                  (h ++ [PathExists tp; QueuePut (Some file_path);
                         SetAdd file_path]),
                World t l (q ++ [Some file_path])))
    else (Returns tt, (Process ps h, World t l q)).
Proof.
  intros file_path tp. unfold scan_file. fold file_path. fold tp.
  rewrite bind_run. unfold and_then. destruct (supported file); [|done].
  unfold fmap, M_fmap. rewrite bind_run, path_exists_run. cbn [tree].
  destruct (exists_in t tp); [done|].
  rewrite ret_run. cbn [negb]. rewrite bind_run, queue_put_run, processed_add_run.
  by rewrite <- !(assoc_L (++)).
Qed.

Lemma scan_files_run t l root files : ∀ ps h q,
  ∃ hs,
    for_each files (scan_file root) (Process ps h, World t l q)
    = (Returns tt,
       (Process (list_to_set (KStr <$> wanted_files t root files) ∪ ps)
          (h ++ hs),
        World t l (q ++ (Some <$> wanted_files t root files))))
    ∧ existsb is_dump hs = false.
Proof.
  induction files as [|file files IH]; intros ps h q.
  - exists []. split; [|done]. cbn [for_each wanted_files fmap list_fmap].
    rewrite ret_run, !(right_id_L [] (++)).
    by rewrite list_to_set_nil, (left_id_L ∅ (∪)).
  - cbn [for_each wanted_files]. rewrite bind_run, scan_file_run.
    destruct (supported file); cbn [andb].
    + destruct (exists_in t _); cbn [negb].
      * destruct (IH ps (h ++ [PathExists (get_transcription_path (join root file))]) q)
          as (hs & -> & Hhs).
        exists (PathExists (get_transcription_path (join root file)) :: hs).
        split; [|exact Hhs]. by rewrite <- (assoc_L (++)).
      * destruct (IH ({[KStr (join root file)]} ∪ ps)
                    (h ++ [PathExists (get_transcription_path (join root file));
                           QueuePut (Some (join root file));
                           SetAdd (join root file)])
                    (q ++ [Some (join root file)]))
          as (hs & -> & Hhs).
        exists ([PathExists (get_transcription_path (join root file));
                 QueuePut (Some (join root file));
                 SetAdd (join root file)] ++ hs).
        split; [|exact Hhs]. rewrite <- !(assoc_L (++)).
        cbn [fmap list_fmap]. rewrite list_to_set_cons.
        f_equal. f_equal. f_equal.
        rewrite (assoc_L (∪)). f_equal. apply (comm_L (∪)).
    + destruct (IH ps h q) as (hs & -> & Hhs). by exists hs.
Qed.

Lemma scan_walk_run t l walk : ∀ ps h q,
  ∃ hs,
    for_each walk scan_directory (Process ps h, World t l q)
    = (Returns tt,
       (Process (list_to_set (KStr <$> wanted t walk) ∪ ps) (h ++ hs),
        World t l (q ++ (Some <$> wanted t walk))))
    ∧ existsb is_dump hs = false.
Proof.
  induction walk as [|[root files] walk IH]; intros ps h q.
  - exists []. split; [|done]. cbn [for_each wanted fmap list_fmap].
    rewrite ret_run, !(right_id_L [] (++)).
    by rewrite list_to_set_nil, (left_id_L ∅ (∪)).
  - cbn [for_each wanted fst snd]. rewrite bind_run. unfold scan_directory at 1.
    cbn [fst snd].
    destruct (scan_files_run t l root files ps h q) as (hs1 & -> & H1).
    destruct (IH (list_to_set (KStr <$> wanted_files t root files) ∪ ps)
                (h ++ hs1) (q ++ (Some <$> wanted_files t root files)))
      as (hs2 & -> & H2).
    exists (hs1 ++ hs2). rewrite existsb_app, H1, H2.
    split; [|done]. rewrite !fmap_app, list_to_set_app_L, !(assoc_L (++)).
    f_equal. f_equal. f_equal.
    rewrite (assoc_L (∪)). f_equal. apply (comm_L (∪)).
Qed.

(** The whole scan, once the ledger has been read. *)
Lemma process_untranscribed_files_run ps h t l q s0 :
  load_processed_files (Process ps h, World t l q)
  = (Returns tt, (Process s0 h, World t l q)) →
  let s := list_to_set (KStr <$> untranscribed t) ∪ s0 in
  ∃ hs,
    process_untranscribed_files (Process ps h, World t l q)
    = (Returns tt,
       (Process s (h ++ hs ++ [LedgerDump (elements s)]),
        World t (Document (JArr (key_json <$> elements s)))
          (q ++ (Some <$> untranscribed t))))
    ∧ existsb is_dump hs = false.
Proof.
  intros Hload s. unfold process_untranscribed_files.
  rewrite bind_run, Hload, bind_run. cbn [get_tree tree]. rewrite bind_run.
  destruct (scan_walk_run t l (os_walk t MONITORED_FOLDER) s0 h q)
    as (hs & -> & Hhs).
  exists hs. split; [|done]. rewrite save_processed_files_run.
  by rewrite <- (assoc_L (++)).
Qed.


(** The load either returns, having changed nothing but the set, or
    raises, having changed nothing; it raises exactly on a ledger that is
    not text or that decodes to something [set] rejects. *)
Lemma load_outcome ps h t l q :
  (∃ s0, load_processed_files (Process ps h, World t l q)
         = (Returns tt, (Process s0 h, World t l q)))
  ∨ (∃ e, load_processed_files (Process ps h, World t l q)
          = (Raises e, (Process ps h, World t l q))
          ∧ (l = NotText ∨ ∃ v e', l = Document v ∧ py_set v = Raises e')).
Proof.
  rewrite load_processed_files_run.
  destruct l as [| | |v].
  - left. by eexists.
  - right. eexists. split; [done|by left].
  - left. by eexists.
  - destruct (py_set v) as [s|e] eqn:E; [left; by eexists|].
    right. eexists. split; [done|]. right. by eexists _, _.
Qed.

Lemma process_untranscribed_files_raises st e st' :
  load_processed_files st = (Raises e, st') →
  process_untranscribed_files st = (Raises e, st').
Proof.
  intros H. unfold process_untranscribed_files. by rewrite bind_run, H.
Qed.

Lemma wanted_files_nil t root files :
  wanted_files t root files = []
  ↔ ∀ file, file ∈ files → supported file = true →
      exists_in t (get_transcription_path (join root file)) = true.
Proof.
  induction files as [|f files IH]; simpl.
  - split; [|done]. intros _ file Hin. by apply elem_of_nil in Hin.
  - destruct (supported f) eqn:Hs; simpl.
    + destruct (exists_in t _) eqn:He; simpl.
      * rewrite IH. split.
        -- intros H file [->|Hin]%elem_of_cons; [done|by apply H].
        -- intros H file Hin. apply H. by right.
      * split; [done|]. intros H.
        specialize (H f (list_elem_of_here _ _) Hs). congruence.
    + rewrite IH. split.
      * intros H file [->|Hin]%elem_of_cons; [congruence|by apply H].
      * intros H file Hin. apply H. by right.
Qed.

Lemma wanted_nil t walk :
  wanted t walk = []
  ↔ ∀ root files file, (root, files) ∈ walk → file ∈ files →
      supported file = true →
      exists_in t (get_transcription_path (join root file)) = true.
Proof.
  induction walk as [|[root files] walk IH]; simpl.
  - split; [|done]. intros _ ??? Hin. by apply elem_of_nil in Hin.
  - split.
    + intros [H1 H2]%app_eq_nil root' files' file [[= -> ->]|Hin]%elem_of_cons.
      * by apply wanted_files_nil.
      * apply IH; done.
    + intros H.
      assert (wanted_files t root files = []) as ->.
      { apply wanted_files_nil. intros file. apply H. by left. }
      apply IH. intros root' files' file Hin. apply H. by right.
Qed.

End Scan.

(** * Claims about the scan and the ledger *)

(** C2, as the code has it.  A scan first loads the ledger.  When the
    load raises (the ledger is not text, or decodes to something [set]
    rejects) the scan stops there: nothing is enqueued and nothing has
    changed.  Otherwise it puts on the queue exactly the supported media
    files under the root whose transcript does not exist, whatever
    [processed_files] and the ledger hold.  Run again with nothing changed
    in between, it completes (it wrote the ledger itself) and puts the
    same jobs on the queue once more; it enqueues nothing exactly when
    every supported file of the walk has its transcript. *)
Theorem second_scan_repeats_first pr w :
  ((∃ e,
      process_untranscribed_files (pr, w) = (Raises e, (pr, w))
      ∧ (ledger w = NotText
         ∨ ∃ v e', ledger w = Document v ∧ py_set v = Raises e'))
   ∨ (∃ pr1 w1,
        process_untranscribed_files (pr, w) = (Returns tt, (pr1, w1))
        ∧ (ledger w = Absent ∨ ledger w = Garbled
           ∨ ∃ v s, ledger w = Document v ∧ py_set v = Returns s)
        ∧ tree w1 = tree w
        ∧ task_queue w1 = task_queue w ++ (Some <$> untranscribed (tree w))
        ∧ ∃ pr2 w2,
            process_untranscribed_files (pr1, w1) = (Returns tt, (pr2, w2))
            ∧ tree w2 = tree w
            ∧ processed_files pr2 = processed_files pr1
            ∧ task_queue w2
              = task_queue w1 ++ (Some <$> untranscribed (tree w))))
  ∧ (untranscribed (tree w) = []
     ↔ ∀ root files file,
         (root, files) ∈ os_walk (tree w) MONITORED_FOLDER → file ∈ files →
         supported file = true →
         exists_in (tree w)
           (get_transcription_path (posixpath.join root file)) = true).
Proof.
  split; [|apply wanted_nil].
  destruct pr as [ps h], w as [t l q].
  destruct (load_outcome ps h t l q) as [[s0 Hload]|(e & Hload & Hcause)].
  - right.
    destruct (process_untranscribed_files_run _ _ _ _ _ _ Hload) as (hs & E & _).
    eexists _, _. split; [exact E|]. cbn [tree task_queue ledger].
    split.
    { rewrite load_processed_files_run in Hload.
      destruct l as [| | |v]; [by left|done|by right; left|].
      right; right. destruct (py_set v) as [s|] eqn:Ev; [by eexists _, _|done]. }
    split; [done|]. split; [done|].
    edestruct (process_untranscribed_files_run
                 (list_to_set (KStr <$> untranscribed t) ∪ s0)
                 (h ++ hs ++ [LedgerDump (elements (list_to_set (KStr <$> untranscribed t) ∪ s0))])
                 t
                 (Document (JArr (key_json <$> elements (list_to_set (KStr <$> untranscribed t) ∪ s0))))
                 (q ++ (Some <$> untranscribed t)))
      as (hs' & E' & _); [apply load_after_save|].
    eexists _, _. split; [exact E'|]. cbn [tree task_queue processed_files].
    split; [done|]. split; [|done].
    rewrite (assoc_L (∪)), (idemp_L (∪)). done.
  - left. exists e. split; [|exact Hcause].
    by apply process_untranscribed_files_raises.
Qed.

Lemma second_scan_repeats_first_witness :
  let st0 := (Process ∅ [], World one_clip Absent []) in
  let st1 := (process_untranscribed_files st0).2 in
  task_queue st1.2 = [] ++ (Some <$> untranscribed one_clip)
  ∧ untranscribed one_clip = ["media_files/clip.mp4"].
Proof.
  intros st0 st1. split; [|vm_compute; reflexivity].
  destruct (second_scan_repeats_first (Process ∅ []) (World one_clip Absent []))
    as [[(e & Hraise & _)|(pr1 & w1 & Hrun & _ & _ & Hqueue & _)] _].
  - vm_compute in Hraise. discriminate Hraise.
  - subst st1 st0. rewrite Hrun. exact Hqueue.
Defined.

(** C2, as stated, fails.  With one media file and no transcript, the
    second of two scans in a row, nothing having changed in between,
    enqueues the file again. *)
Lemma second_scan_enqueues_again :
  let st0 := (Process ∅ [], World one_clip Absent []) in
  let st1 := (process_untranscribed_files st0).2 in
  let st2 := (process_untranscribed_files st1).2 in
  task_queue st1.2 = [Some "media_files/clip.mp4"]
  ∧ tree st1.2 = one_clip
  ∧ task_queue st2.2 = [Some "media_files/clip.mp4"; Some "media_files/clip.mp4"].
Proof. vm_compute. done. Qed.




(** * The watcher *)

Section Watcher.
Import PyStr posixpath.

Lemma on_created_run ev ps h t l q :
  on_created ev (Process ps h, World t l q)
  = if negb (is_directory ev) && supported (src_path ev)
    then
      let tp := get_transcription_path (src_path ev) in
      if exists_in t (src_path ev)
      then if exists_in t tp
           then (Returns tt,
                 (Process ps (h ++ [Sleep 3; PathExists (src_path ev); PathExists tp]),
                  World t l q))
           else (Returns tt,
                 (Process ps (h ++ [Sleep 3; PathExists (src_path ev); PathExists tp;
                                    QueuePut (Some (src_path ev))]),
                  World t l (q ++ [Some (src_path ev)])))
      else (Returns tt,
            (Process ps (h ++ [Sleep 3; PathExists (src_path ev)]), World t l q))
    else (Returns tt, (Process ps h, World t l q)).
Proof.
  unfold on_created. destruct (negb (is_directory ev) && supported (src_path ev));
    [|done].
  unfold sleep. rewrite bind_run, record_run, bind_run, path_exists_run.
  cbn [tree]. rewrite bind_run. unfold and_then.
  destruct (exists_in t (src_path ev)).
  - unfold fmap, M_fmap. rewrite bind_run, path_exists_run. cbn [tree].
    rewrite ret_run. destruct (exists_in t _); cbn [negb].
    + rewrite ret_run. by rewrite <- !(assoc_L (++)).
    + rewrite queue_put_run. by rewrite <- !(assoc_L (++)).
  - rewrite !ret_run. by rewrite <- !(assoc_L (++)).
Qed.

Lemma on_moved_run ev ps h t l q :
  on_moved ev (Process ps h, World t l q)
  = if negb (is_directory ev) && supported (dest_path ev)
    then
      let tp := get_transcription_path (dest_path ev) in
      if exists_in t tp
      then (Returns tt, (Process ps (h ++ [PathExists tp]), World t l q))
      else (Returns tt,
            (Process ps (h ++ [PathExists tp; QueuePut (Some (dest_path ev))]),
             World t l (q ++ [Some (dest_path ev)])))
    else (Returns tt, (Process ps h, World t l q)).
Proof.
  unfold on_moved. destruct (negb (is_directory ev) && supported (dest_path ev));
    [|done].
  rewrite bind_run, path_exists_run. cbn [tree].
  destruct (exists_in t _); cbn [negb]; [done|].
  rewrite queue_put_run. by rewrite <- !(assoc_L (++)).
Qed.

(** The loop of [on_deleted] returns the first candidate that exists. *)
Lemma find_media_run filename order ps h w :
  ∃ hs,
    find_media filename order (Process ps h, w)
    = (Returns (List.find (exists_in (tree w))
                  ((λ ext, join MONITORED_FOLDER (filename +:+ ext)) <$> order)),
       (Process ps (h ++ hs), w))
    ∧ existsb is_work hs = false.
Proof.
  revert h. induction order as [|ext order IH]; intros h.
  - exists []. by rewrite (right_id_L [] (++)).
  - cbn [find_media fmap list_fmap List.find]. rewrite bind_run, path_exists_run.
    destruct (exists_in (tree w) _).
    + eexists [_]. done.
    + destruct (IH (h ++ [PathExists (join MONITORED_FOLDER (filename +:+ ext))]))
        as (hs & -> & Hhs).
      exists (PathExists (join MONITORED_FOLDER (filename +:+ ext)) :: hs).
      split; [|exact Hhs]. by rewrite <- (assoc_L (++)).
Qed.

Lemma on_deleted_run order ev ps h t l q :
  ∃ hs,
    on_deleted order ev (Process ps h, World t l q)
    = (Returns tt,
       (Process ps (h ++ hs),
        World t l
          (q ++ if negb (is_directory ev) && endswith (src_path ev) ".txt"
                then match List.find (exists_in t) (candidates order (src_path ev)) with
                     | Some p => if truthy p then [Some p] else []
                     | None => []
                     end
                else []))).
Proof.
  unfold on_deleted.
  destruct (negb (is_directory ev) && endswith (src_path ev) ".txt").
  - rewrite bind_run.
    destruct (find_media_run
                (replace ".txt" "" (basename (src_path ev))) order ps h
                (World t l q)) as (hs & -> & _).
    cbn [tree]. fold (candidates order (src_path ev)).
    destruct (List.find _ _) as [p|].
    + destruct (truthy p).
      * exists (hs ++ [QueuePut (Some p)]). rewrite queue_put_run.
        by rewrite <- (assoc_L (++)).
      * exists hs. by rewrite (right_id_L [] (++)).
    + exists hs. by rewrite (right_id_L [] (++)).
  - exists []. by rewrite !(right_id_L [] (++)).
Qed.

(** C10.  A notification about a directory makes each of the three
    handlers return at once: the queue, the tree, the ledger and the
    process are as before, and no call was made (no existence test, no
    sleep, no put). *)
Theorem directory_events_are_inert (order : list string) (ev : event)
    (st : process * world) :
  is_directory ev = true →
  on_created ev st = (Returns tt, st)
  ∧ on_moved ev st = (Returns tt, st)
  ∧ on_deleted order ev st = (Returns tt, st).
Proof.
  intros Hdir. unfold on_created, on_moved, on_deleted. by rewrite Hdir.
Qed.

Lemma directory_events_are_inert_witness :
  let st := (Process ∅ [], World one_clip Absent []) in
  let ev := directory_event "media_files/album.mp3" in
  on_created ev st = (Returns tt, st)
  ∧ on_moved ev st = (Returns tt, st)
  ∧ on_deleted SUPPORTED_FORMATS ev st = (Returns tt, st).
Proof.
  intros st ev. apply (directory_events_are_inert SUPPORTED_FORMATS ev st).
  reflexivity.
Defined.

End Watcher.

(** * Claims about what reaches the queue *)

Section Supported.
Import PyStr posixpath.

Lemma supported_iff p :
  supported p = true ↔ ∃ x ext, ext ∈ SUPPORTED_FORMATS ∧ p = x +:+ ext.
Proof.
  unfold supported. rewrite existsb_exists. split.
  - intros (ext & Hin & [x ->]%endswith_inv). exists x, ext.
    split; [by apply list_elem_of_In|done].
  - intros (x & ext & Hin & ->). exists ext.
    split; [by apply list_elem_of_In|apply endswith_app].
Qed.

Lemma supported_app x p : supported p = true → supported (x +:+ p) = true.
Proof.
  rewrite !supported_iff. intros (y & ext & Hin & ->).
  exists (x +:+ y), ext. by rewrite str_app_assoc.
Qed.

Lemma supported_join root file :
  supported file = true → supported (join root file) = true.
Proof.
  intros H. unfold join. destruct (_ || _); [done|].
  destruct (endswith root _); [by apply supported_app|].
  apply supported_app. by apply (supported_app (String sep "")).
Qed.

Lemma supported_format_shape ext :
  ext ∈ SUPPORTED_FORMATS → rfind extsep ext = 0 ∧ rfind sep ext = -1.
Proof.
  unfold SUPPORTED_FORMATS. intros H.
  repeat (apply elem_of_cons in H as [->|H]; [by split|]).
  by apply elem_of_nil in H.
Qed.

Lemma empty_not_supported_format : "" ∉ SUPPORTED_FORMATS.
Proof.
  unfold SUPPORTED_FORMATS. intros H.
  repeat (apply elem_of_cons in H as [?|H]; [discriminate|]).
  by apply elem_of_nil in H.
Qed.

Lemma extension_supported p :
  extension p ∈ SUPPORTED_FORMATS → supported p = true.
Proof.
  unfold extension, splitext. destruct (_ && _); cbn [snd].
  - intros H. apply supported_iff. eexists _, _. split; [exact H|].
    symmetry. apply str_take_drop.
  - intros H. by apply empty_not_supported_format in H.
Qed.

Lemma extension_of_supported x ext :
  ext ∈ SUPPORTED_FORMATS → all_char extsep (basename x) = false →
  extension (x +:+ ext) = ext.
Proof.
  intros [Hdot Hsep]%supported_format_shape Hx. unfold extension.
  by rewrite (splitext_suffix _ _ Hdot Hsep), Hx.
Qed.

Lemma wanted_files_supported t root files p :
  p ∈ wanted_files t root files → supported p = true.
Proof.
  induction files as [|f files IH]; simpl; [by intros ?%elem_of_nil|].
  destruct (supported f) eqn:Hs; simpl; [|done].
  destruct (exists_in t _); simpl; [done|].
  intros [->|Hin]%elem_of_cons; [by apply supported_join|by apply IH].
Qed.

Lemma wanted_supported t walk p : p ∈ wanted t walk → supported p = true.
Proof.
  induction walk as [|[root files] walk IH]; simpl; [by intros ?%elem_of_nil|].
  intros [Hin|Hin]%elem_of_app; [by eapply wanted_files_supported|by apply IH].
Qed.

Lemma scan_only_puts_supported : only_puts_supported process_untranscribed_files.
Proof.
  intros [ps h] [t l q] out pr' w' Hrun.
  destruct (load_outcome ps h t l q) as [[s0 Hs0]|(e & Hload & _)].
  - destruct (process_untranscribed_files_run _ _ _ _ _ _ Hs0) as (hs & E & _).
    rewrite E in Hrun. injection Hrun as <- <- <-.
    exists (Some <$> untranscribed t). split; [done|].
    intros j (p & -> & Hp)%list_elem_of_fmap. exists p.
    split; [done|by eapply wanted_supported].
  - rewrite (process_untranscribed_files_raises _ _ _ Hload) in Hrun.
    injection Hrun as <- <- <-.
    exists []. split; [|by intros ? ?%elem_of_nil].
    by rewrite (right_id_L [] (++)).
Qed.

Lemma on_created_only_puts_supported ev : only_puts_supported (on_created ev).
Proof.
  intros [ps h] [t l q] out pr' w'. rewrite on_created_run.
  destruct (negb (is_directory ev) && supported (src_path ev)) eqn:Hg.
  - apply andb_true_iff in Hg as [_ Hs]. cbn zeta.
    destruct (exists_in t (src_path ev)); [destruct (exists_in t _)|];
      intros [= <- <- <-]; cbn [task_queue].
    + exists []. split; [by rewrite (right_id_L [] (++))|by intros ? ?%elem_of_nil].
    + exists [Some (src_path ev)]. split; [done|].
      intros j ->%list_elem_of_singleton. by eexists.
    + exists []. split; [by rewrite (right_id_L [] (++))|by intros ? ?%elem_of_nil].
  - intros [= <- <- <-]. exists [].
    split; [by rewrite (right_id_L [] (++))|by intros ? ?%elem_of_nil].
Qed.

Lemma on_moved_only_puts_supported ev : only_puts_supported (on_moved ev).
Proof.
  intros [ps h] [t l q] out pr' w'. rewrite on_moved_run.
  destruct (negb (is_directory ev) && supported (dest_path ev)) eqn:Hg.
  - apply andb_true_iff in Hg as [_ Hs]. cbn zeta.
    destruct (exists_in t _); intros [= <- <- <-]; cbn [task_queue].
    + exists []. split; [by rewrite (right_id_L [] (++))|by intros ? ?%elem_of_nil].
    + exists [Some (dest_path ev)]. split; [done|].
      intros j ->%list_elem_of_singleton. by eexists.
  - intros [= <- <- <-]. exists [].
    split; [by rewrite (right_id_L [] (++))|by intros ? ?%elem_of_nil].
Qed.

Lemma candidates_supported order transcript p :
  order ⊆ SUPPORTED_FORMATS → p ∈ candidates order transcript →
  supported p = true.
Proof.
  intros Hsub (ext & -> & Hin)%list_elem_of_fmap.
  apply supported_join, supported_iff. eexists _, ext. split; [|done].
  by apply Hsub.
Qed.

Lemma on_deleted_only_puts_supported order ev :
  order ⊆ SUPPORTED_FORMATS → only_puts_supported (on_deleted order ev).
Proof.
  intros Hsub [ps h] [t l q] out pr' w' Hrun.
  destruct (on_deleted_run order ev ps h t l q) as (hs & E).
  rewrite E in Hrun. injection Hrun as <- <- <-. cbn [task_queue].
  eexists. split; [done|]. intros j Hj.
  destruct (negb (is_directory ev) && endswith (src_path ev) ".txt");
    [|by apply elem_of_nil in Hj].
  destruct (List.find _ _) as [p|] eqn:Hfind; [|by apply elem_of_nil in Hj].
  destruct (truthy p); [|by apply elem_of_nil in Hj].
  apply list_elem_of_singleton in Hj as ->. exists p. split; [done|].
  apply List.find_some in Hfind as [Hin%list_elem_of_In _].
  by eapply candidates_supported.
Qed.

(** C6, as the code has it.  The supported-media test is a suffix test:
    it holds exactly when the path ends with a member of
    [SUPPORTED_FORMATS], letter case as given.  It holds whenever the
    extension of the path is a member, and gives the extension back when
    the last component has something other than dots before the suffix.
    Every job the scan or a watcher handler puts on the queue is for a
    path that passes the test (the scan applies it to the file name, which
    the job path ends with). *)
Theorem only_supported_paths_are_enqueued :
  (∀ p, supported p = true ↔ ∃ x ext, ext ∈ SUPPORTED_FORMATS ∧ p = x +:+ ext)
  ∧ (∀ p, extension p ∈ SUPPORTED_FORMATS → supported p = true)
  ∧ (∀ x ext, ext ∈ SUPPORTED_FORMATS → all_char extsep (basename x) = false →
       extension (x +:+ ext) = ext)
  ∧ only_puts_supported process_untranscribed_files
  ∧ (∀ ev, only_puts_supported (on_created ev))
  ∧ (∀ ev, only_puts_supported (on_moved ev))
  ∧ (∀ order ev, order ⊆ SUPPORTED_FORMATS →
       only_puts_supported (on_deleted order ev)).
Proof.
  split; [exact supported_iff|]. split; [exact extension_supported|].
  split; [exact extension_of_supported|].
  split; [exact scan_only_puts_supported|].
  split; [exact on_created_only_puts_supported|].
  split; [exact on_moved_only_puts_supported|].
  exact on_deleted_only_puts_supported.
Qed.

Lemma only_supported_paths_are_enqueued_witness :
  supported "media_files/clip.mp4" = true
  ∧ extension ("media_files/clip" +:+ ".mp4") = ".mp4"
  ∧ only_puts_supported
      (on_deleted SUPPORTED_FORMATS (file_event "media_files/clip.txt")).
Proof.
  destruct only_supported_paths_are_enqueued
    as (_ & Hext & Hback & _ & _ & _ & Hdel).
  assert (".mp4" ∈ SUPPORTED_FORMATS) as Hin.
  { unfold SUPPORTED_FORMATS. do 2 apply list_elem_of_further.
    apply list_elem_of_here. }
  split; [|split].
  - apply Hext. vm_compute. do 2 apply list_elem_of_further.
    apply list_elem_of_here.
  - apply Hback; [exact Hin|reflexivity].
  - apply Hdel. done.
Defined.

(** C6, as stated, fails.  A file named [.mp3] has no extension
    ([os.path.splitext] gives the empty string, which is not in
    [SUPPORTED_FORMATS]), yet it passes the test and the scan enqueues
    it. *)
Lemma dot_file_is_enqueued :
  extension "media_files/.mp3" = ""
  ∧ (extension "media_files/.mp3" ∉ SUPPORTED_FORMATS)
  ∧ supported "media_files/.mp3" = true
  ∧ task_queue
      (process_untranscribed_files (Process ∅ [], World hidden_name Absent [])).2.2
    = [Some "media_files/.mp3"].
Proof.
  split; [reflexivity|]. split; [exact empty_not_supported_format|].
  split; [reflexivity|]. vm_compute. reflexivity.
Qed.

(** C5 fails on the code.  A media file in a sub-directory still exists
    and its transcript, which sat next to it, has been deleted.
    [on_deleted] looks for the media file in [MONITORED_FOLDER] itself
    instead of the directory of the deleted transcript, finds nothing,
    and the queue is as before, in whatever order the formats are
    visited. *)
Theorem nested_transcript_deletion_enqueues_nothing
    (order : list string) ps h l q :
  order ⊆ SUPPORTED_FORMATS →
  exists_in nested_clip "media_files/sub/clip.mp4" = true
  ∧ get_transcription_path "media_files/sub/clip.mp4" = "media_files/sub/clip.txt"
  ∧ exists_in nested_clip "media_files/sub/clip.txt" = false
  ∧ task_queue
      (on_deleted order (file_event "media_files/sub/clip.txt")
         (Process ps h, World nested_clip l q)).2.2
    = q.
Proof.
  intros Hsub. split; [reflexivity|]. split; [reflexivity|].
  split; [reflexivity|].
  destruct (on_deleted_run order (file_event "media_files/sub/clip.txt")
              ps h nested_clip l q) as (hs & ->).
  cbn [snd task_queue].
  assert (List.find (exists_in nested_clip)
            (candidates order (src_path (file_event "media_files/sub/clip.txt")))
          = None) as ->.
  { unfold candidates. induction order as [|ext order IH]; [done|].
    cbn [fmap list_fmap List.find].
    assert (ext ∈ SUPPORTED_FORMATS) as Hext by (apply Hsub; left).
    assert (exists_in nested_clip
              (join MONITORED_FOLDER
                 (replace ".txt" ""
                    (basename (src_path (file_event "media_files/sub/clip.txt")))
                  +:+ ext)) = false) as ->.
    { unfold SUPPORTED_FORMATS in Hext.
      repeat (apply elem_of_cons in Hext as [->|Hext]; [reflexivity|]).
      by apply elem_of_nil in Hext. }
    apply IH. intros x Hx. apply Hsub. by right. }
  destruct (_ && _); apply (right_id_L [] (++)).
Qed.

Lemma nested_transcript_deletion_enqueues_nothing_witness :
  SUPPORTED_FORMATS ⊆ SUPPORTED_FORMATS
  ∧ task_queue
      (on_deleted SUPPORTED_FORMATS (file_event "media_files/sub/clip.txt")
         (Process ∅ [], World nested_clip Absent [])).2.2
    = [].
Proof.
  split; [done|].
  apply (nested_transcript_deletion_enqueues_nothing SUPPORTED_FORMATS ∅ []
           Absent []).
  done.
Defined.

(** The same handler strips every [".txt"] of the name, not only the
    suffix: the transcript of [my.txt.mp3] is [my.txt.txt], and its
    deletion makes the handler look for [my.mp3] and friends. *)
Lemma on_deleted_strips_every_txt :
  get_transcription_path "media_files/my.txt.mp3" = "media_files/my.txt.txt"
  ∧ candidates [".mp3"] "media_files/my.txt.txt" = ["media_files/my.mp3"]
  ∧ task_queue
      (on_deleted SUPPORTED_FORMATS (file_event "media_files/my.txt.txt")
         (Process ∅ [], World txt_in_name Absent [])).2.2
    = [].
Proof. vm_compute. done. Qed.

End Supported.

(** * The example of the specification *)

(** One clip and no transcript: the scan enqueues the clip, a worker
    writes the transcript and records the clip in the ledger, a second
    scan enqueues nothing, and the deletion of the transcript puts the
    clip on the queue again. *)
Lemma clip_story_runs :
  ∃ s,
    run echo_engine clip_story (initial_system one_clip Absent) = Returns s
    ∧ task_queue (shared s) = [Some "media_files/clip.mp4"]
    ∧ persisted (ledger (shared s)) = [JStr "media_files/clip.mp4"]
    ∧ (history <$> workers s !! 0%nat)
      = Some [PathExists "media_files/clip.txt";
              Transcribe "media_files/clip.mp4";
              WriteText "media_files/clip.txt" "text of media_files/clip.mp4";
              SetAdd "media_files/clip.mp4";
              LedgerDump [KStr "media_files/clip.mp4"]].
Proof.
  eexists. split; [vm_compute; reflexivity|]. vm_compute. done.
Qed.

(** * Writing a transcript *)

Section TreeFrame.
Import posixpath.













End TreeFrame.

(** * More about the worker loop *)

Section WorkerLoop.
Variable engine : string → option string.

(** Whatever a job does, it leaves the queue alone; and when it raises,
    the ledger and the set are as before, and the tree is as the failed
    write left it. *)
Lemma handle_job_outcome p ps h t l q :
  ∃ out pr' t' l',
    handle_job engine p (Process ps h, World t l q)
    = (out, (pr', World t' l' q))
    ∧ (out = Returns true
       ∨ ∃ e, out = Raises e ∧ l' = l ∧ processed_files pr' = ps
              ∧ (engine p = None ∧ e = EngineError ∧ t' = t
                 ∨ ∃ text, engine p = Some text
                     ∧ write_file t (get_transcription_path p) text = Raises e
                     ∧ t' = tree_after_failed_write t (get_transcription_path p))).
Proof.
  destruct (bool_decide (KStr p ∈ ps)
            && exists_in t (get_transcription_path p)) eqn:Hc.
  - apply andb_true_iff in Hc as [Hin%bool_decide_eq_true Hex].
    rewrite (handle_job_skip engine p ps h (World t l q) Hin Hex).
    eexists _, _, _, _. split; [done|by left].
  - rewrite (handle_job_process engine p ps h t l q Hc).
    destruct (engine p) as [text|].
    + destruct (write_file t (get_transcription_path p) text) as [t'|e] eqn:Hw.
      * eexists _, _, _, _. split; [done|by left].
      * eexists _, _, _, _. split; [done|]. right. exists e.
        split; [done|]. split; [done|]. split; [done|]. right. by exists text.
    + eexists _, _, _, _. split; [done|]. right. exists EngineError.
      split; [done|]. split; [done|]. split; [done|]. by left.
Qed.

Lemma worker_iteration_job_outcome p ps h t l q :
  ∃ pr' t' l',
    worker_iteration engine (Process ps h, World t l (Some p :: q))
    = (Returns true, (pr', World t' l' q)).
Proof.
  rewrite worker_iteration_job.
  destruct (handle_job_outcome p ps h t l q)
    as (out & pr' & t' & l' & -> & [->|(e & -> & _)]); by eexists _, _, _.
Qed.


(** X4.  A worker takes the jobs ahead of the first sentinel one by one
    and stops at the sentinel: what follows it stays on the queue for the
    other workers. *)
Theorem worker_stops_at_sentinel (jobs : list string) rest fuel pr t l :
  (length jobs < fuel)%nat →
  ∃ pr' t' l',
    transcriber_worker engine fuel
      (pr, World t l ((Some <$> jobs) ++ None :: rest))
    = (Returns tt, (pr', World t' l' rest)).
Proof.
  revert fuel pr t l. induction jobs as [|p jobs IH]; intros fuel pr t l Hfuel.
  - destruct fuel as [|fuel]; [simpl in Hfuel; lia|]. destruct pr as [ps h].
    cbn [transcriber_worker fmap list_fmap app]. rewrite bind_run.
    rewrite worker_iteration_sentinel. by eexists _, _, _.
  - destruct fuel as [|fuel]; [simpl in Hfuel; lia|]. destruct pr as [ps h].
    cbn [transcriber_worker]. rewrite bind_run, fmap_cons.
    change ((Some p :: (Some <$> jobs)) ++ None :: rest)
      with (Some p :: ((Some <$> jobs) ++ None :: rest)).
    destruct (worker_iteration_job_outcome p ps h t l
                ((Some <$> jobs) ++ None :: rest)) as (pr' & t' & l' & E).
    rewrite E. apply IH. simpl in Hfuel. lia.
Qed.

End WorkerLoop.


Lemma worker_stops_at_sentinel_witness :
  ∃ pr' t' l',
    transcriber_worker echo_engine 5
      (Process ∅ [],
       World one_clip Absent
         ((Some <$> ["media_files/clip.mp4"; "media_files/clip.mp4"])
          ++ None :: [None; Some "media_files/late.mp3"]))
    = (Returns tt, (pr', World t' l' [None; Some "media_files/late.mp3"])).
Proof.
  apply (worker_stops_at_sentinel echo_engine
           ["media_files/clip.mp4"; "media_files/clip.mp4"]
           [None; Some "media_files/late.mp3"] 5 (Process ∅ []) one_clip Absent).
  simpl. lia.
Defined.

Lemma worker_skips_after_own_success_witness :
  let p := "media_files/clip.mp4" in
  let st1 := (handle_job echo_engine p (Process ∅ [], World one_clip Absent [])).2 in
  handle_job echo_engine p st1
  = (Returns true,
     (Process (processed_files st1.1)
        (history st1.1 ++ [PathExists (get_transcription_path p)]), st1.2)).
Proof.
  intros p st1.
  apply (worker_skips_after_own_success echo_engine p ∅ [] one_clip Absent []
           ("text of " +:+ p)
           [Directory "media_files"
              [("clip.mp4", "video"); ("clip.txt", "text of " +:+ p)]]
           st1.1 st1.2).
  - vm_compute. reflexivity.
  - vm_compute. reflexivity.
  - vm_compute. reflexivity.
  - symmetry. apply surjective_pairing.
Defined.

(** * The ledger and the scan, once more *)

(** X1.  What one process saves, any process loads: after
    [save_processed_files], [load_processed_files] sets the loading
    process's set to the saved one, whatever the ledger held before and
    whatever the loading process had. *)
Theorem ledger_round_trip ps h t l q ps' h' :
  let w1 := (save_processed_files (Process ps h, World t l q)).2.2 in
  load_processed_files (Process ps' h', w1) = (Returns tt, (Process ps h', w1)).
Proof. cbn zeta. rewrite save_processed_files_run. apply load_after_save. Qed.

Lemma wanted_files_missing t root files p :
  p ∈ wanted_files t root files → exists_in t (get_transcription_path p) = false.
Proof.
  induction files as [|f files IH]; simpl; [by intros ?%elem_of_nil|].
  destruct (supported f); simpl; [|done].
  destruct (exists_in t (get_transcription_path (posixpath.join root f))) eqn:E;
    simpl; [done|].
  intros [->|Hin]%elem_of_cons; [done|by apply IH].
Qed.

Lemma wanted_missing t walk p :
  p ∈ wanted t walk → exists_in t (get_transcription_path p) = false.
Proof.
  induction walk as [|[root files] walk IH]; simpl; [by intros ?%elem_of_nil|].
  intros [Hin|Hin]%elem_of_app; [by eapply wanted_files_missing|by apply IH].
Qed.

(** X7.  A file a worker has transcribed is not enqueued by a later scan,
    whichever process runs it: the scan reads the ledger the worker left
    without error, and the path is not among the jobs it adds. *)
Theorem transcribed_file_not_rescanned (engine : string → option string)
    p ps h t l q text t' ps0 h0 :
  bool_decide (KStr p ∈ ps) && exists_in t (get_transcription_path p) = false →
  engine p = Some text →
  write_file t (get_transcription_path p) text = Returns t' →
  let w1 := (handle_job engine p (Process ps h, World t l q)).2.2 in
  ∃ pr2 w2 new,
    process_untranscribed_files (Process ps0 h0, w1) = (Returns tt, (pr2, w2))
    ∧ tree w1 = t'
    ∧ task_queue w2 = q ++ (Some <$> new)
    ∧ p ∉ new.
Proof.
  intros Hno Heng Hwrite. cbn zeta.
  rewrite (handle_job_process engine p ps h t l q Hno), Heng, Hwrite.
  cbn [snd tree].
  edestruct (process_untranscribed_files_run ps0 h0 t'
               (Document (JArr (key_json <$> elements ({[KStr p]} ∪ ps)))) q)
    as (hs & E & _); [apply load_after_save|].
  eexists _, _, (untranscribed t'). split; [exact E|]. split; [done|].
  split; [done|]. intros Hin%wanted_missing.
  rewrite (write_file_exists _ _ _ _ Hwrite) in Hin. discriminate Hin.
Qed.

Lemma transcribed_file_not_rescanned_witness :
  let p := "media_files/clip.mp4" in
  let w1 := (handle_job echo_engine p (Process ∅ [], World one_clip Absent [])).2.2 in
  ∃ pr2 w2 new,
    process_untranscribed_files (Process ∅ [], w1) = (Returns tt, (pr2, w2))
    ∧ tree w1
      = [Directory "media_files"
           [("clip.mp4", "video"); ("clip.txt", "text of " +:+ p)]]
    ∧ task_queue w2 = [] ++ (Some <$> new)
    ∧ p ∉ new.
Proof.
  intros p.
  apply (transcribed_file_not_rescanned echo_engine p ∅ [] one_clip Absent []
           ("text of " +:+ p)
           [Directory "media_files"
              [("clip.mp4", "video"); ("clip.txt", "text of " +:+ p)]] ∅ []);
    vm_compute; reflexivity.
Defined.

(** X8.  A scan replaces a ledger whose text is not JSON (the case the
    [except] clause catches), and creates a missing one: it returns, and
    afterwards the ledger holds the scanning process's set, which is the
    paths just enqueued, together with what the process already had when
    the ledger was missing.  A ledger that is not valid text is not
    repaired: the scan raises [UnicodeDecodeError] at the load, having
    enqueued nothing and changed nothing. *)
Theorem scan_repairs_ledger ps h t q :
  (∃ pr1 w1,
     process_untranscribed_files (Process ps h, World t Garbled q)
     = (Returns tt, (pr1, w1))
     ∧ processed_files pr1 = list_to_set (KStr <$> untranscribed t)
     ∧ holds (ledger w1) (processed_files pr1))
  ∧ (∃ pr1 w1,
       process_untranscribed_files (Process ps h, World t Absent q)
       = (Returns tt, (pr1, w1))
       ∧ processed_files pr1 = list_to_set (KStr <$> untranscribed t) ∪ ps
       ∧ holds (ledger w1) (processed_files pr1))
  ∧ process_untranscribed_files (Process ps h, World t NotText q)
    = (Raises UnicodeDecodeError, (Process ps h, World t NotText q)).
Proof.
  split; [|split].
  - edestruct (process_untranscribed_files_run ps h t Garbled q)
      as (hs & E & _); [apply load_resets_on_undecodable_ledger|].
    eexists _, _. split; [exact E|]. cbn [processed_files ledger].
    split; [apply (right_id_L ∅ (∪))|done].
  - edestruct (process_untranscribed_files_run ps h t Absent q)
      as (hs & E & _); [apply load_keeps_set_without_ledger|].
    eexists _, _. split; [exact E|]. done.
  - apply process_untranscribed_files_raises, load_raises_on_non_text_ledger.
Qed.

(** * More about paths *)

Section MorePaths.
Import PyStr posixpath.

Lemma str_take_app_le n x e :
  (n ≤ String.length x)%nat → take n (x +:+ e) = take n x.
Proof.
  revert n. induction x as [|a x IH]; intros n Hn.
  - simpl in Hn. assert (n = 0%nat) as -> by lia. by rewrite !str_take_0.
  - destruct n as [|n]; [done|]. rewrite str_app_cons. simpl.
    rewrite IH; [done|]. simpl in Hn. lia.
Qed.

Lemma str_drop_app_le n x e :
  (n ≤ String.length x)%nat → drop n (x +:+ e) = drop n x +:+ e.
Proof.
  revert n. induction x as [|a x IH]; intros n Hn.
  - simpl in Hn. assert (n = 0%nat) as -> by lia. by rewrite !str_drop_0.
  - destruct n as [|n]; [done|]. rewrite str_app_cons. simpl.
    apply IH. simpl in Hn. lia.
Qed.

Lemma rfind_succ_le c x : (Z.to_nat (rfind c x + 1) ≤ String.length x)%nat.
Proof.
  pose proof (rfind_upper c x) as Hup. pose proof (rfind_lower c x) as Hlo.
  unfold len in Hup. lia.
Qed.

Lemma dirname_app_absent x e : rfind sep e = -1 → dirname (x +:+ e) = dirname x.
Proof.
  intros He. unfold dirname, slice_to. rewrite (rfind_app_absent _ _ _ He).
  by rewrite (str_take_app_le _ _ _ (rfind_succ_le sep x)).
Qed.

Lemma basename_app_absent x e :
  rfind sep e = -1 → basename (x +:+ e) = basename x +:+ e.
Proof.
  intros He. unfold basename, slice_from. rewrite (rfind_app_absent _ _ _ He).
  apply str_drop_app_le, rfind_succ_le.
Qed.

Lemma transcript_path_of_suffixed x ext :
  ext ∈ SUPPORTED_FORMATS → all_char extsep (basename x) = false →
  get_transcription_path (x +:+ ext) = join (dirname x) (basename x +:+ ".txt").
Proof.
  intros [Hdot Hsep]%supported_format_shape Hx.
  rewrite get_transcription_path_unfold. unfold stem.
  rewrite (dirname_app_absent _ _ Hsep), (basename_app_absent _ _ Hsep).
  rewrite (splitext_suffix _ _ Hdot Hsep).
  by rewrite (basename_sep_free _ (basename_absent x)), Hx.
Qed.

(** X9.  The transcript path does not depend on which supported suffix
    the media path carries: two media files of one directory whose names
    differ only in that suffix share one transcript.  The name before the
    suffix must have a character other than a dot. *)
Theorem transcript_path_ignores_extension x ext1 ext2 :
  ext1 ∈ SUPPORTED_FORMATS → ext2 ∈ SUPPORTED_FORMATS →
  all_char extsep (basename x) = false →
  get_transcription_path (x +:+ ext1) = join (dirname x) (basename x +:+ ".txt")
  ∧ get_transcription_path (x +:+ ext1) = get_transcription_path (x +:+ ext2).
Proof.
  intros H1 H2 Hx. split; [by apply transcript_path_of_suffixed|].
  by rewrite !transcript_path_of_suffixed.
Qed.

Lemma transcript_path_ignores_extension_witness :
  get_transcription_path ("media_files/sub/talk" +:+ ".mp3")
  = get_transcription_path ("media_files/sub/talk" +:+ ".wav").
Proof.
  apply (transcript_path_ignores_extension "media_files/sub/talk" ".mp3" ".wav").
  - apply list_elem_of_here.
  - apply list_elem_of_further, list_elem_of_here.
  - vm_compute. reflexivity.
Defined.

Lemma str_app_same_length_suffix x y a b :
  String.length a = String.length b → x +:+ a = y +:+ b → a = b.
Proof.
  intros Hlen. revert y. induction x as [|c x IH]; intros [|d y] E.
  - done.
  - rewrite str_app_empty_l in E. apply (f_equal String.length) in E.
    rewrite str_app_cons in E. simpl in E. rewrite str_length_app in E. lia.
  - rewrite str_app_empty_l in E. apply (f_equal String.length) in E.
    rewrite str_app_cons in E. simpl in E. rewrite str_length_app in E. lia.
  - rewrite !str_app_cons in E. injection E as _ E. by eapply IH.
Qed.

(** X10.  A transcript path always ends in [".txt"]; it is never the
    ledger file, and it never passes the supported-media test, so no
    transcript is ever taken for a media file. *)
Theorem transcript_path_is_a_txt_file p :
  endswith (get_transcription_path p) ".txt" = true
  ∧ get_transcription_path p ≠ PROCESSED_FILES_DB
  ∧ supported (get_transcription_path p) = false.
Proof.
  assert (endswith (get_transcription_path p) ".txt" = true) as Hend.
  { rewrite get_transcription_path_unfold. apply join_endswith, endswith_app. }
  split; [done|]. split; [apply transcript_path_not_ledger|].
  destruct (supported (get_transcription_path p)) eqn:Hs; [|done].
  apply supported_iff in Hs as (y & ext & Hin & Ey).
  apply endswith_inv in Hend as [x Ex]. rewrite Ex in Ey.
  assert (".txt" = ext) as <-.
  { apply (str_app_same_length_suffix x y); [|done].
    unfold SUPPORTED_FORMATS in Hin.
    repeat (apply elem_of_cons in Hin as [->|Hin]; [done|]).
    by apply elem_of_nil in Hin. }
  unfold SUPPORTED_FORMATS in Hin.
  repeat (apply elem_of_cons in Hin as [?|Hin]; [discriminate|]).
  by apply elem_of_nil in Hin.
Qed.

End MorePaths.

(** * More about the watcher *)

Section MoreWatcher.
Import PyStr posixpath.

Lemma join_truthy a b : truthy a = true → truthy (join a b) = true.
Proof.
  intros Ha. unfold join. rewrite Ha. cbn [negb]. rewrite orb_false_r.
  destruct b as [|c b].
  - destruct (endswith a _); simpl; [by rewrite str_app_empty_r|].
    unfold truthy. apply negb_true_iff, String.eqb_neq.
    intros E. by apply str_app_eq_empty in E as [_ ?].
  - destruct (startswith _ _); [done|].
    destruct (endswith a _); unfold truthy; apply negb_true_iff, String.eqb_neq;
      intros E; by apply str_app_eq_empty in E as [_ ?].
Qed.

(** X11.  The three handlers never raise and touch nothing but the
    queue: the set, the tree and the ledger are as before, the calls
    made are existence tests, the sleep and the put, and at most one job
    is added, at the end of the queue. *)
Theorem handlers_only_touch_queue (order : list string) (ev : event)
    ps h t l q :
  ∀ handler,
    handler = on_created ev ∨ handler = on_moved ev
    ∨ handler = on_deleted order ev →
    ∃ hs new,
      handler (Process ps h, World t l q)
      = (Returns tt, (Process ps (h ++ hs), World t l (q ++ new)))
      ∧ existsb is_work hs = false
      ∧ (length new ≤ 1)%nat.
Proof.
  intros handler [->|[->| ->]].
  - rewrite on_created_run.
    destruct (negb (is_directory ev) && supported (src_path ev)).
    + cbn zeta. destruct (exists_in t (src_path ev)); [destruct (exists_in t _)|].
      * exists [Sleep 3; PathExists (src_path ev);
                PathExists (get_transcription_path (src_path ev))], [].
        rewrite (right_id_L [] (++) q). split; [done|]. split; [done|].
        simpl. lia.
      * exists [Sleep 3; PathExists (src_path ev);
                PathExists (get_transcription_path (src_path ev));
                QueuePut (Some (src_path ev))], [Some (src_path ev)].
        split; [done|]. split; [done|]. simpl. lia.
      * exists [Sleep 3; PathExists (src_path ev)], [].
        rewrite (right_id_L [] (++) q). split; [done|]. split; [done|].
        simpl. lia.
    + exists [], []. rewrite !(right_id_L [] (++)). split; [done|]. split; [done|].
      simpl. lia.
  - rewrite on_moved_run.
    destruct (negb (is_directory ev) && supported (dest_path ev)).
    + cbn zeta. destruct (exists_in t _).
      * exists [PathExists (get_transcription_path (dest_path ev))], [].
        rewrite (right_id_L [] (++) q). split; [done|]. split; [done|].
        simpl. lia.
      * exists [PathExists (get_transcription_path (dest_path ev));
                QueuePut (Some (dest_path ev))], [Some (dest_path ev)].
        split; [done|]. split; [done|]. simpl. lia.
    + exists [], []. rewrite !(right_id_L [] (++)). split; [done|]. split; [done|].
      simpl. lia.
  - unfold on_deleted.
    destruct (negb (is_directory ev) && endswith (src_path ev) ".txt").
    + rewrite bind_run.
      destruct (find_media_run
                  (replace ".txt" "" (basename (src_path ev))) order ps h
                  (World t l q)) as (hs & -> & Hhs).
      destruct (List.find _ _) as [p|].
      * destruct (truthy p).
        -- exists (hs ++ [QueuePut (Some p)]), [Some p].
           rewrite queue_put_run, <- (assoc_L (++)). split; [done|].
           split; [|simpl; lia]. rewrite existsb_app, Hhs. done.
        -- exists hs, []. rewrite (right_id_L [] (++)). split; [done|].
           split; [done|]. simpl. lia.
      * exists hs, []. rewrite (right_id_L [] (++)). split; [done|].
        split; [done|]. simpl. lia.
    + exists [], []. rewrite !(right_id_L [] (++)). split; [done|].
      split; [done|]. simpl. lia.
Qed.

Lemma handlers_only_touch_queue_witness :
  ∃ hs new,
    on_moved (Event false "media_files/old.mp3" "media_files/clip.mp4")
      (Process ∅ [], World one_clip Absent [])
    = (Returns tt, (Process ∅ ([] ++ hs), World one_clip Absent ([] ++ new)))
    ∧ existsb is_work hs = false
    ∧ (length new ≤ 1)%nat.
Proof.
  apply (handlers_only_touch_queue SUPPORTED_FORMATS
           (Event false "media_files/old.mp3" "media_files/clip.mp4")
           ∅ [] one_clip Absent []).
  right. left. reflexivity.
Defined.

Lemma replace_txt_dot_free name :
  rfind extsep name = -1 → replace ".txt" "" (name +:+ ".txt") = name.
Proof.
  unfold replace. induction name as [|a name IH]; [done|].
  intros [Ha Hname]%rfind_cons_absent. rewrite str_app_cons.
  cbn [replace_from].
  assert (String.prefix ".txt" (String a (name +:+ ".txt")) = false) as ->.
  { cbn [String.prefix]. destruct (ascii_dec "." a) as [E|]; [|done].
    exfalso. apply Ha. symmetry. exact E. }
  by rewrite IH.
Qed.

Lemma find_fmap_first {A B} (f : B → bool) (g : A → B) (l : list A) j :
  List.find f (g <$> l) = Some j →
  ∃ l1 x l2,
    l = l1 ++ x :: l2 ∧ j = g x ∧ f (g x) = true
    ∧ ∀ y, y ∈ l1 → f (g y) = false.
Proof.
  induction l as [|a l IH]; [done|]. cbn [fmap list_fmap List.find].
  destruct (f (g a)) eqn:E.
  - intros [= <-]. exists [], a, l. split; [done|]. split; [done|].
    split; [done|]. by intros y ?%elem_of_nil.
  - intros (l1 & x & l2 & -> & -> & Hx & Hl1)%IH.
    exists (a :: l1), x, l2. split; [done|]. split; [done|]. split; [done|].
    intros y [->|Hy]%elem_of_cons; [done|by apply Hl1].
Qed.

Lemma monitored_join b :
  rfind sep b = -1 →
  join MONITORED_FOLDER b = MONITORED_FOLDER +:+ String sep b.
Proof. intros Hb. by apply join_plain. Qed.

(** X12.  For a media file that sits directly in the monitored folder,
    whose name before the suffix is non-empty and has neither a dot nor a
    slash, the deletion of its transcript puts exactly one job on the
    queue: for the first suffix, in the order the formats are visited,
    that gives an existing file of that name in the monitored folder
    (every suffix visited before it gives none).  It is the media file
    itself when no other suffix gives an existing file. *)
Theorem top_level_transcript_deletion_requeues name ext (order : list string)
    ps h t l q :
  name ≠ "" → rfind sep name = -1 → rfind extsep name = -1 →
  ext ∈ SUPPORTED_FORMATS → ext ∈ order →
  let media := join MONITORED_FOLDER (name +:+ ext) in
  exists_in t media = true →
  ∃ before ext' after,
    order = before ++ ext' :: after
    ∧ (∀ e, e ∈ before →
         exists_in t (join MONITORED_FOLDER (name +:+ e)) = false)
    ∧ exists_in t (join MONITORED_FOLDER (name +:+ ext')) = true
    ∧ task_queue
        (on_deleted order (file_event (get_transcription_path media))
           (Process ps h, World t l q)).2.2
      = q ++ [Some (join MONITORED_FOLDER (name +:+ ext'))]
    ∧ ((∀ e, e ∈ order →
          exists_in t (join MONITORED_FOLDER (name +:+ e)) = true → e = ext) →
       ext' = ext).
Proof.
  intros Hne Hsep Hdot Hext Hin media Hex.
  destruct (supported_format_shape _ Hext) as [_ Hextsep].
  assert (all_char extsep name = false) as Hdots.
  { destruct name as [|a name]; [done|].
    apply rfind_cons_absent in Hdot as [Ha _]. simpl.
    destruct (Ascii.eqb_spec a extsep); [done|done]. }
  assert (get_transcription_path media
          = join MONITORED_FOLDER (name +:+ ".txt")) as Htp.
  { unfold media.
    rewrite (monitored_join _ (rfind_app_absent_both _ _ _ Hsep Hextsep)).
    change (MONITORED_FOLDER +:+ String sep (name +:+ ext))
      with (MONITORED_FOLDER +:+ (String sep name +:+ ext)).
    rewrite <- str_app_assoc.
    rewrite (transcript_path_of_suffixed
               (MONITORED_FOLDER +:+ String sep name) ext Hext).
    - by rewrite (basename_split _ _ Hsep), (dirname_split _ _ Hsep).
    - by rewrite (basename_split _ _ Hsep). }
  assert (candidates order (get_transcription_path media)
          = (λ e, join MONITORED_FOLDER (name +:+ e)) <$> order) as Hcand.
  { unfold candidates. rewrite Htp.
    rewrite (monitored_join _ (txt_name_absent _ Hsep)).
    rewrite (basename_split _ _ (txt_name_absent _ Hsep)).
    by rewrite (replace_txt_dot_free _ Hdot). }
  destruct (on_deleted_run order (file_event (get_transcription_path media))
              ps h t l q) as (hs & ->).
  cbn [snd task_queue is_directory src_path file_event negb andb].
  assert (endswith (get_transcription_path media) ".txt" = true) as ->.
  { rewrite Htp. apply join_endswith, endswith_app. }
  rewrite Hcand.
  destruct (List.find _ _) as [j|] eqn:Hfind.
  - apply find_fmap_first in Hfind
      as (before & ext' & after & Horder & -> & Hjex & Hbefore).
    exists before, ext', after. split; [done|]. split; [done|]. split; [done|].
    rewrite (join_truthy MONITORED_FOLDER _ eq_refl). split; [done|].
    intros Honly. apply Honly; [|done]. rewrite Horder.
    apply elem_of_app. right. by left.
  - exfalso. pose proof (List.find_none _ _ Hfind media) as Hnone.
    rewrite Hex in Hnone. cut (true = false); [done|]. apply Hnone.
    apply list_elem_of_In, list_elem_of_fmap. by exists ext.
Qed.

Lemma top_level_transcript_deletion_requeues_witness :
  ∃ before ext' after,
    SUPPORTED_FORMATS = before ++ ext' :: after
    ∧ (∀ e, e ∈ before →
         exists_in one_clip (join MONITORED_FOLDER ("clip" +:+ e)) = false)
    ∧ exists_in one_clip (join MONITORED_FOLDER ("clip" +:+ ext')) = true
    ∧ task_queue
        (on_deleted SUPPORTED_FORMATS
           (file_event (get_transcription_path
                          (join MONITORED_FOLDER ("clip" +:+ ".mp4"))))
           (Process ∅ [], World one_clip Absent [])).2.2
      = [] ++ [Some (join MONITORED_FOLDER ("clip" +:+ ext'))]
    ∧ ((∀ e, e ∈ SUPPORTED_FORMATS →
          exists_in one_clip (join MONITORED_FOLDER ("clip" +:+ e)) = true →
          e = ".mp4") →
       ext' = ".mp4").
Proof.
  assert (".mp4" ∈ SUPPORTED_FORMATS) as Hin.
  { do 2 apply list_elem_of_further. apply list_elem_of_here. }
  apply (top_level_transcript_deletion_requeues "clip" ".mp4" SUPPORTED_FORMATS
           ∅ [] one_clip Absent []); try exact Hin.
  - discriminate.
  - vm_compute. reflexivity.
  - vm_compute. reflexivity.
  - vm_compute. reflexivity.
Defined.

End MoreWatcher.

(** * Start-up and shut-down *)

Lemma put_sentinels_run n : ∀ ps h t l q,
  for_each (replicate n tt) (λ _, queue_put None) (Process ps h, World t l q)
  = (Returns tt,
     (Process ps (h ++ replicate n (QueuePut None)),
      World t l (q ++ replicate n None))).
Proof.
  induction n as [|n IH]; intros ps h t l q.
  - cbn [replicate for_each]. by rewrite ret_run, !(right_id_L [] (++)).
  - cbn [replicate for_each]. rewrite bind_run, queue_put_run, IH.
    by rewrite <- !(assoc_L (++)).
Qed.

(** X13.  The program starts [NUM_WORKERS] workers, at most four, and on
    interrupt puts as many sentinels at the end of the queue as it
    started workers; the jobs already queued, the tree, the ledger and
    the workers are left as they are. *)
Theorem shutdown_one_sentinel_per_worker (engine : string → option string)
    how cpu_count s s1 s2 :
  step engine (Startup how cpu_count) s = Returns s1 →
  step engine (Interrupt cpu_count) s1 = Returns s2 →
  length (workers s1) = NUM_WORKERS cpu_count
  ∧ (length (workers s1) ≤ 4)%nat
  ∧ task_queue (shared s2)
    = task_queue (shared s1) ++ replicate (length (workers s1)) None
  ∧ tree (shared s2) = tree (shared s1)
  ∧ ledger (shared s2) = ledger (shared s1)
  ∧ workers s2 = workers s1.
Proof.
  intros Hstart Hstop. cbn [step] in Hstart.
  destruct (in_main process_untranscribed_files s) as [s'|e]; [|done].
  injection Hstart as <-. cbn [workers shared main_process] in *.
  rewrite length_replicate.
  split; [done|]. split; [unfold NUM_WORKERS; lia|].
  cbn [step] in Hstop. unfold in_main in Hstop. cbn [main_process shared workers] in Hstop.
  destruct (main_process s') as [ps h], (shared s') as [t l q].
  rewrite put_sentinels_run in Hstop. by injection Hstop as <-.
Qed.

Lemma shutdown_one_sentinel_per_worker_witness :
  ∃ s1 s2,
    step echo_engine (Startup Spawn 8) (initial_system clip_and_transcript Absent)
    = Returns s1
    ∧ step echo_engine (Interrupt 8) s1 = Returns s2
    ∧ length (workers s1) = 4%nat
    ∧ task_queue (shared s2) = [None; None; None; None].
Proof.
  eexists _, _. split; [vm_compute; reflexivity|].
  split; [vm_compute; reflexivity|].
  match goal with
  | |- length (workers ?a) = _ ∧ task_queue (shared ?b) = _ =>
      destruct (shutdown_one_sentinel_per_worker echo_engine Spawn 8
                  (initial_system clip_and_transcript Absent) a b)
        as (Hn & _ & Hq & _)
  end; [vm_compute; reflexivity|vm_compute; reflexivity|].
  split; [exact Hn|]. rewrite Hq. vm_compute. reflexivity.
Defined.
